(** * Gaussian peak fitting scripts: a shallow embedding

    The two figure scripts
    [content/diagrams/02-gaussian-fitting-taylor.py] and
    [content/diagrams/03-peak-deconvolution-step3.py]
    synthesise a noisy trace, estimate a baseline and peak moments, and fit
    Gaussian models.  Their numerical core is embedded here over the real
    numbers: a NumPy array of floats is a [list R], arithmetic is exact, and
    the IEEE values [inf] and [nan] do not exist, so that a statement about a
    quotient holds where its divisor is not zero.  Where a statement is about
    rounding itself, the code is read on binary64 numbers instead
    ([Binary64]).  The solvers of NumPy and
    SciPy and the random generator are parameters of the definitions that
    call them; where a proof needs a part of their contract, it is a
    hypothesis of the theorem, and a concrete implementation shows that it
    can be met. *)

From Stdlib Require Import String.
From Stdlib Require Floats.
From Stdlib Require Import Reals Lra Lia List Bool ZArith.
Import ListNotations.
Open Scope string_scope.
Open Scope list_scope.
Open Scope R_scope.

(** ** Exceptions and results *)

(** The Python exceptions the scripts can meet, followed by the four error
    kinds that the specification names. *)
Inductive exn : Type :=
| TypeError (msg : string)
| ValueError (msg : string)
| IndexError (msg : string)
| RuntimeError (msg : string)
| DegenerateBaselineError
| FitConvergenceError (best : list R) (residual : R)
| InvalidGridConstraintError
| InvalidInputError.

Inductive result (A : Type) : Type :=
| Return (a : A)
| Raise (e : exn).

Arguments Return {A} a.
Arguments Raise {A} e.

Definition bind {A B : Type} (m : result A) (k : A -> result B) : result B :=
  match m with
  | Return a => k a
  | Raise e => Raise e
  end.

Notation "x <- m ;; k" := (bind m (fun x => k))
  (at level 61, m at next level, right associativity).

Definition is_return {A : Type} (m : result A) : Prop :=
  exists a, m = Return a.

(** ** Comparisons on floats, read as reals *)

Definition Rltb (x y : R) : bool := if Rlt_dec x y then true else false.
Definition Rleb (x y : R) : bool := if Rle_dec x y then true else false.
Definition Rgeb (x y : R) : bool := Rleb y x.

(** ** NumPy array primitives *)

Module Np.

(** Element-wise binary operation on two arrays of one shape.  On two
    lengths that differ and are not 1, NumPy raises a [ValueError]; the
    scripts only combine arrays cut from one grid, and the model, which
    would stop at the shorter one, is meant for equal lengths. *)
Fixpoint map2 {A B C : Type} (f : A -> B -> C) (a : list A) (b : list B) : list C :=
  match a, b with
  | x :: a', y :: b' => f x y :: map2 f a' b'
  | _, _ => []
  end.

Definition add (a b : list R) : list R := map2 Rplus a b.
Definition sub (a b : list R) : list R := map2 Rminus a b.
Definition mul (a b : list R) : list R := map2 Rmult a b.

(** [np.sum] *)
Definition sum (a : list R) : R := fold_left Rplus a 0.

(** [np.mean] *)
Definition mean (a : list R) : R := sum a / INR (length a).

(** [a.max()] and [a.min()]: a reduction with no identity, so an empty array
    raises. *)
Definition amax (a : list R) : result R :=
  match a with
  | [] => Raise (ValueError "zero-size array to reduction operation maximum which has no identity")
  | x :: a' => Return (fold_left Rmax a' x)
  end.

Definition amin (a : list R) : result R :=
  match a with
  | [] => Raise (ValueError "zero-size array to reduction operation minimum which has no identity")
  | x :: a' => Return (fold_left Rmin a' x)
  end.

(** [np.clip(a, 0.0, None)] *)
Definition clip0 (a : list R) : list R := map (fun v => Rmax v 0) a.

(** [np.isfinite]: every real number is finite. *)
Definition isfinite (x : R) : bool := true.

(** [np.where(cond, a, 0.0)] with the condition array computed from [a]. *)
Definition where_ge (thr : R) (a : list R) : list R :=
  map (fun v => if Rgeb v thr then v else 0) a.

(** Boolean-mask indexing [a[mask]]. *)
Fixpoint select {A : Type} (mask : list bool) (a : list A) : list A :=
  match mask, a with
  | m :: mask', x :: a' => if m then x :: select mask' a' else select mask' a'
  | _, _ => []
  end.

(** [np.trapezoid(y, x)]: sum of [diff(x) * (y[1:] + y[:-1]) / 2]. *)
Fixpoint trapezoid_terms (y x : list R) : list R :=
  match y, x with
  | y0 :: ((y1 :: _) as y'), x0 :: ((x1 :: _) as x') =>
      ((x1 - x0) * (y1 + y0) / 2) :: trapezoid_terms y' x'
  | _, _ => []
  end.

Definition trapezoid (y x : list R) : R := sum (trapezoid_terms y x).

(** [np.linspace(start, stop, num)], end point included. *)
Definition linspace (start stop : R) (num : nat) : list R :=
  match num with
  | O => []
  | S O => [start]
  | S (S _ as d) =>
      let step := (stop - start) / INR d in
      map (fun i => INR i * step + start) (seq 0 d) ++ [stop]
  end.

(** [np.arange(lo, hi)] on integers. *)
Definition arange (lo hi : nat) : list nat := seq lo (hi - lo).

(** [np.polyval(p, t)] for a degree-1 coefficient pair [(p[0], p[1])]. *)
Definition polyval (p : R * R) (t : list R) : list R :=
  map (fun ti => fst p * ti + snd p) t.

(** Integer-array indexing.  [a[idx]] reads, and raises on an index out of
    bounds; [a[idx] = vals] writes in order, so of two writes to one index
    the later stays; [a[idx] += vals] is a read, an addition and a write. *)
Fixpoint take (a : list R) (idx : list nat) : result (list R) :=
  match idx with
  | [] => Return []
  | i :: idx' =>
      match nth_error a i with
      | Some v => rest <- take a idx' ;; Return (v :: rest)
      | None => Raise (IndexError "index is out of bounds")
      end
  end.

Fixpoint set_nth (i : nat) (v : R) (a : list R) : list R :=
  match a, i with
  | [], _ => []
  | _ :: a', O => v :: a'
  | w :: a', S i' => w :: set_nth i' v a'
  end.

Fixpoint put (a : list R) (idx : list nat) (vals : list R) : list R :=
  match idx, vals with
  | i :: idx', v :: vals' => put (set_nth i v a) idx' vals'
  | _, _ => a
  end.

Definition iadd_at (a : list R) (idx : list nat) (vals : list R) : result (list R) :=
  cur <- take a idx ;;
  Return (put a idx (add cur vals)).

End Np.

(** ** The random generator

    [numpy.random.Generator] is a bit generator whose state every draw
    advances.  [np.random.default_rng(seed)] derives the initial state from
    the seed when one is given and from fresh operating-system entropy when
    it is not.  A sized draw is kept as the function that gives the sample at
    each index, so that an array drawn with [size=n] has [n] entries. *)

Record Generator : Type := {
  bitgen : Type;
  entropy : Type;
  seeded : Z -> bitgen;
  unseeded : entropy -> bitgen;
  (** [rng.normal(loc, scale, size)] *)
  normal : R -> R -> bitgen -> (nat -> R) * bitgen;
  (** [rng.uniform(low, high, size)] *)
  uniform : R -> R -> bitgen -> (nat -> R) * bitgen;
  (** [rng.choice(a, size, replace=False)]: raises when the population is
      smaller than the sample *)
  choice : list nat -> nat -> bitgen -> result (list nat * bitgen)
}.

Definition default_rng (G : Generator) (seed : option Z) (os : entropy G) : bitgen G :=
  match seed with
  | Some s => seeded G s
  | None => unseeded G os
  end.

Definition draw (size : nat) (sample : nat -> R) : list R := map sample (seq 0 size).

(** ** SciPy's bounded curve fit

    With bounds given, [scipy.optimize.curve_fit] runs [least_squares] with
    [max_nfev = maxfev] and inspects the [OptimizeResult]: status 0 means the
    evaluation budget ran out, a positive status is a satisfied convergence
    test.  The solver itself is a parameter; it can raise, as it does on a
    starting point outside the bounds.  SciPy is no part of the scripts:
    [curve_fit] below is the behaviour its documentation states, and what is
    proved about [main] is proved for a library that behaves so. *)

Module Scipy.

Record OptimizeResult : Type := {
  x : list R;
  cost : R;
  status : Z;
  message : string
}.

Definition success (res : OptimizeResult) : bool := (0 <? status res)%Z.

Definition model : Type := list R -> list R -> result (list R).

Definition solver : Type :=
  model -> list R -> list R -> list R -> list R * list R -> Z -> result OptimizeResult.

Definition curve_fit (least_squares : solver) (f : model) (xdata ydata p0 : list R)
    (bounds : list R * list R) (maxfev : Z) : result (list R) :=
  res <- least_squares f xdata ydata p0 bounds maxfev ;;
  if success res then Return (x res)
  else Raise (RuntimeError (String.append "Optimal parameters not found: " (message res))).

(** The feasibility test of [least_squares] on the starting point,
    [np.all((x0 >= lb) & (x0 <= ub))]. *)
Fixpoint in_bounds (x0 lb ub : list R) : bool :=
  match x0, lb, ub with
  | v :: x0', l :: lb', u :: ub' => Rgeb v l && Rleb v u && in_bounds x0' lb' ub'
  | _, _, _ => true
  end.

End Scipy.

(** ** [02-gaussian-fitting-taylor.py] *)

Module Taylor.

(** *** Left panel: [plot_single_gauss] *)

(** The literals of the synthetic trace, gathered so that the generator can
    be read at any seed, grid and parameters. *)
Record single_cfg : Type := {
  seed : Z;
  grid : list R;
  t0_true : R;
  sigma_true : R;
  peak_height : R;
  base_level : R;
  base_drift : R;
  base_ripple : R;
  base_period : R;
  noise_scale : R;
  spike_margin : nat;
  spike_count : nat;
  spike_low : R;
  spike_high : R
}.

Definition source_single_cfg : single_cfg := {|
  seed := 3;
  grid := Np.linspace 0 120 600;
  t0_true := 35;
  sigma_true := 8;
  peak_height := 3.5;
  base_level := 0.05;
  base_drift := 0.03;
  base_ripple := 0.02;
  base_period := 1.3;
  noise_scale := 0.05;
  spike_margin := 30;
  spike_count := 10;
  spike_low := 0.15;
  spike_high := 0.4
|}.

(** Lines 19-36: the trace, clipped at zero after the noise and again after
    the spikes.  Lines 27-30 divide by [sigma_true], by [t.max()] and by the
    period of the ripple; on a zero divisor NumPy gives [nan] or [inf], which
    the reals do not have, so the definition stands for the code where
    [no_zero_divisor] holds, as it does for the literals of the script. *)
Definition single_signal (G : Generator) (c : single_cfg) (os : entropy G)
    : result (list R) :=
  let rng := default_rng G (Some (seed c)) os in
  let t := grid c in
  let A_true := peak_height c * (sqrt (2 * PI) * sigma_true c) in
  let peak :=
    map (fun ti => (A_true / (sqrt (2 * PI) * sigma_true c))
                   * exp (- ((ti - t0_true c) ^ 2) / (2 * sigma_true c ^ 2))) t in
  tmax <- Np.amax t ;;
  let baseline :=
    map (fun ti => base_level c + base_drift c * (ti / tmax)
                   + base_ripple c * sin (2 * PI * ti / (tmax * base_period c))) t in
  let '(noise, rng) := normal G 0 (noise_scale c) rng in
  let signal := Np.clip0 (Np.add (Np.add peak baseline) (draw (length t) noise)) in
  let population := Np.arange (spike_margin c) (length t - spike_margin c) in
  picked <- choice G population (spike_count c) rng ;;
  let '(spike_indices, rng) := picked in
  let '(bumps, _) := uniform G (spike_low c) (spike_high c) rng in
  signal <- Np.iadd_at signal spike_indices (draw (length spike_indices) bumps) ;;
  Return (Np.clip0 signal).

(** The divisors of lines 27-30 are not zero. *)
Definition no_zero_divisor (c : single_cfg) : Prop :=
  sigma_true c <> 0 /\ base_period c <> 0 /\ Np.amax (grid c) <> Return 0.

(** Line 38: [(t <= 10.0) | (t >= 70.0)] *)
Definition single_edge_mask (t : list R) : list bool :=
  map (fun ti => Rleb ti 10 || Rgeb ti 70) t.

(** Lines 39-40 and 135-136: the degree-1 fit on the masked samples and its
    evaluation on the whole grid.  [polyfit x y] is [np.polyfit(x, y, 1)],
    the pair (slope, intercept). *)
Definition baseline_estimate (polyfit : list R -> list R -> result (R * R))
    (mask : list bool) (t signal : list R) : result ((R * R) * list R) :=
  pb <- polyfit (Np.select mask t) (Np.select mask signal) ;;
  Return (pb, Np.polyval pb t).

(** Lines 43-53: moments of the thresholded, baseline-subtracted trace. *)
Definition single_moments (t s0 : list R) : result (R * R * R) :=
  peak <- Np.amax s0 ;;
  let threshold := 0.10 * peak in
  let weights := Np.where_ge threshold s0 in
  let area := Np.trapezoid weights t in
  let '(weights, area) :=
    if negb (Np.isfinite area) || Rleb area 0
    then (s0, Np.trapezoid s0 t) else (weights, area) in
  let t0_est := Np.trapezoid (Np.mul t weights) t / Rmax area 1e-12 in
  let var_est :=
    Np.trapezoid (Np.mul (map (fun ti => (ti - t0_est) ^ 2) t) weights) t
    / Rmax area 1e-12 in
  let sigma_est := sqrt (Rmax var_est 1e-12) in
  Return (area, t0_est, sigma_est).

Record single_fit : Type := {
  sf_signal : list R;
  sf_baseline_hat : list R;
  sf_area : R;
  sf_t0_est : R;
  sf_sigma_est : R;
  sf_fit : list R
}.

(** Lines 38-57 on a given trace. *)
Definition single_gauss_fit (polyfit : list R -> list R -> result (R * R))
    (t signal : list R) : result single_fit :=
  base <- baseline_estimate polyfit (single_edge_mask t) t signal ;;
  let baseline_hat := snd base in
  let s0 := Np.clip0 (Np.sub signal baseline_hat) in
  est <- single_moments t s0 ;;
  let '(area, t0_est, sigma_est) := est in
  let fit :=
    Np.add (map (fun ti => (area / (sqrt (2 * PI) * sigma_est))
                           * exp (- ((ti - t0_est) ^ 2) / (2 * sigma_est ^ 2))) t)
           baseline_hat in
  Return {| sf_signal := signal; sf_baseline_hat := baseline_hat; sf_area := area;
            sf_t0_est := t0_est; sf_sigma_est := sigma_est; sf_fit := fit |}.

(** The numerical part of [plot_single_gauss], lines 19-57. *)
Definition plot_single_gauss (G : Generator)
    (polyfit : list R -> list R -> result (R * R)) (os : entropy G)
    : result single_fit :=
  signal <- single_signal G source_single_cfg os ;;
  single_gauss_fit polyfit (grid source_single_cfg) signal.

(** *** Right panel: [plot_shared_t0_multi_gauss] *)

(** Line 107-108: the area-normalised Gaussian. *)
Definition gauss (x : list R) (area sigma center : R) : list R :=
  map (fun xi => (area / (sqrt (2 * PI) * sigma))
                 * exp (- 0.5 * ((xi - center) / sigma) ^ 2)) x.

(** Lines 98-117: the two-component trace, cut to the window around the
    true centre. *)
Definition shared_signal (G : Generator) (os : entropy G) : list R * list R :=
  let rng := default_rng G (Some 7%Z) os in
  let t := Np.linspace 3 8 700 in
  let baseline := map (fun _ => 1) t in
  let t0_true := 6 in
  let sigma1_true := 0.10 in
  let sigma2_true := 0.55 in
  let A1_true := 0.22 in
  let A2_true := 0.75 in
  let clean := Np.add (gauss t A1_true sigma1_true t0_true)
                      (gauss t A2_true sigma2_true t0_true) in
  let '(noise, _) := normal G 0 0.006 rng in
  let signal := Np.add (Np.add baseline clean) (draw (length t) noise) in
  let tmin := t0_true - 1.5 in
  let tmax := t0_true + 1.5 in
  let window := map (fun ti => Rgeb ti tmin && Rleb ti tmax) t in
  (Np.select window t, Np.select window signal).

(** A row of the design matrix and the coefficient vector: the model has the
    four columns narrow Gaussian, wide Gaussian, one and centred time. *)
Definition row4 : Type := (R * R * R * R)%type.
Definition coef4 : Type := (R * R * R * R)%type.

(** [np.linalg.lstsq(X, y, rcond=None)[0]] for a four-column [X].  On a
    matrix with a [nan] or an [inf], as a zero width would give, NumPy raises
    a [LinAlgError]; over the reals there is no such matrix. *)
Definition lstsq_solver : Type := list row4 -> list R -> coef4.

(** Lines 121-124 *)
Definition basis_cols (t_mean : R) (x : list R) (t0 s1 s2 : R)
    : list R * list R * list R * list R :=
  let g1 := map (fun xi => (1 / (sqrt (2 * PI) * s1))
                           * exp (- 0.5 * ((xi - t0) / s1) ^ 2)) x in
  let g2 := map (fun xi => (1 / (sqrt (2 * PI) * s2))
                           * exp (- 0.5 * ((xi - t0) / s2) ^ 2)) x in
  (g1, g2, map (fun _ => 1) x, map (fun xi => xi - t_mean) x).

(** [np.column_stack] of four columns *)
Fixpoint column_stack (g1 g2 ones tc : list R) : list row4 :=
  match g1, g2, ones, tc with
  | a :: g1', b :: g2', c :: ones', d :: tc' =>
      (a, b, c, d) :: column_stack g1' g2' ones' tc'
  | _, _, _, _ => []
  end.

(** [X @ coef] *)
Definition matvec (X : list row4) (coef : coef4) : list R :=
  let '(k1, k2, k3, k4) := coef in
  map (fun r : row4 => let '(a, b, c, d) := r in a * k1 + b * k2 + c * k3 + d * k4) X.

(** Lines 126-132 *)
Definition solve_linear (lstsq : lstsq_solver) (t_mean : R) (x y : list R)
    (t0 s1 s2 : R) : coef4 * list R * R :=
  let '(g1, g2, ones, tcentered) := basis_cols t_mean x t0 s1 s2 in
  let X := column_stack g1 g2 ones tcentered in
  let coef := lstsq X y in
  let yhat := matvec X coef in
  let sse := Np.sum (map (fun d => d ^ 2) (Np.sub y yhat)) in
  (coef, yhat, sse).

(** Lines 138-146: the moments again, with the coarser variance floor. *)
Definition shared_moments (t s0 : list R) : result (R * R * R) :=
  peak <- Np.amax s0 ;;
  let threshold := 0.10 * peak in
  let weights := Np.where_ge threshold s0 in
  let area_est := Np.trapezoid weights t in
  let '(weights, area_est) :=
    if negb (Np.isfinite area_est) || Rleb area_est 0
    then (s0, Np.trapezoid s0 t) else (weights, area_est) in
  let t0_est := Np.trapezoid (Np.mul t weights) t / Rmax area_est 1e-12 in
  let var_est :=
    Np.trapezoid (Np.mul (map (fun ti => (ti - t0_est) ^ 2) t) weights) t
    / Rmax area_est 1e-12 in
  let sigma_est := sqrt (Rmax var_est 1e-6) in
  Return (area_est, t0_est, sigma_est).

(** Lines 148-150 *)
Definition t0_grid (t0_est : R) : list R :=
  Np.linspace (t0_est - 0.3) (t0_est + 0.3) 21.
Definition s1_grid (sigma_est : R) : list R :=
  Np.linspace (Rmax 0.04 (0.15 * sigma_est)) (Rmax 0.20 (0.7 * sigma_est)) 12.
Definition s2_grid (sigma_est : R) : list R :=
  Np.linspace (Rmax 0.30 (0.8 * sigma_est)) (Rmax 1.0 (2.2 * sigma_est)) 14.

(** Lines 152-157: the six [best_*] variables, all [None] or all set. *)
Record best : Type := {
  best_sse : R;
  best_coef : coef4;
  best_yhat : list R;
  best_t0 : R;
  best_s1 : R;
  best_s2 : R
}.

(** Lines 162-171: the body of the innermost loop. *)
Definition visit (lstsq : lstsq_solver) (t_mean : R) (t signal : list R)
    (acc : option best) (t0_guess s1_guess s2_guess : R) : option best :=
  if Rgeb s1_guess s2_guess then acc
  else
    let '(coef, yhat, sse) := solve_linear lstsq t_mean t signal t0_guess s1_guess s2_guess in
    let found := {| best_sse := sse; best_coef := coef; best_yhat := yhat;
                    best_t0 := t0_guess; best_s1 := s1_guess; best_s2 := s2_guess |} in
    match acc with
    | None => Some found
    | Some b => if Rltb sse (best_sse b) then Some found else acc
    end.

(** Lines 159-171: the three nested loops. *)
Definition grid_search (lstsq : lstsq_solver) (t_mean : R) (t signal : list R)
    (t0s s1s s2s : list R) : option best :=
  fold_left (fun acc t0_guess =>
    fold_left (fun acc s1_guess =>
      fold_left (fun acc s2_guess =>
        visit lstsq t_mean t signal acc t0_guess s1_guess s2_guess)
        s2s acc)
      s1s acc)
    t0s None.

Record shared_fit_result : Type := {
  sh_best : best;
  sh_baseline_fit : list R;
  sh_comp1 : list R;
  sh_comp2 : list R
}.

(** Lines 173-177: the unpacking of [best_coef], which fails on [None], and
    the two fitted components. *)
Definition unpack_best (t_mean : R) (t : list R) (found : option best)
    : result shared_fit_result :=
  match found with
  | None => Raise (TypeError "cannot unpack non-iterable NoneType object")
  | Some b =>
      let '(A1_fit, A2_fit, c0_fit, c1_fit) := best_coef b in
      let '(g1_fit, g2_fit, _, _) :=
        basis_cols t_mean t (best_t0 b) (best_s1 b) (best_s2 b) in
      let baseline_fit := map (fun ti => c0_fit + c1_fit * (ti - t_mean)) t in
      let comp1 := Np.add baseline_fit (map (fun g => A1_fit * g) g1_fit) in
      let comp2 := Np.add baseline_fit (map (fun g => A2_fit * g) g2_fit) in
      Return {| sh_best := b; sh_baseline_fit := baseline_fit;
                sh_comp1 := comp1; sh_comp2 := comp2 |}
  end.

(** Lines 152-177 over any three grids. *)
Definition search_and_unpack (lstsq : lstsq_solver) (t signal : list R)
    (t0s s1s s2s : list R) : result shared_fit_result :=
  let t_mean := Np.mean t in
  unpack_best t_mean t (grid_search lstsq t_mean t signal t0s s1s s2s).

(** Line 134: [(t <= t.min() + 0.7) | (t >= t.max() - 0.7)] *)
Definition shared_edge_mask (t : list R) : result (list bool) :=
  lo <- Np.amin t ;;
  hi <- Np.amax t ;;
  Return (map (fun ti => Rleb ti (lo + 0.7) || Rgeb ti (hi - 0.7)) t).

(** Lines 119-177 on a given trace. *)
Definition shared_fit (polyfit : list R -> list R -> result (R * R))
    (lstsq : lstsq_solver) (t signal : list R) : result shared_fit_result :=
  edge <- shared_edge_mask t ;;
  base <- baseline_estimate polyfit edge t signal ;;
  let baseline_hat := snd base in
  let s0 := Np.clip0 (Np.sub signal baseline_hat) in
  est <- shared_moments t s0 ;;
  let '(_, t0_est, sigma_est) := est in
  search_and_unpack lstsq t signal
    (t0_grid t0_est) (s1_grid sigma_est) (s2_grid sigma_est).

(** The numerical part of [plot_shared_t0_multi_gauss], lines 97-177. *)
Definition plot_shared_t0_multi_gauss (G : Generator)
    (polyfit : list R -> list R -> result (R * R)) (lstsq : lstsq_solver)
    (os : entropy G) : result shared_fit_result :=
  let '(t, signal) := shared_signal G os in
  shared_fit polyfit lstsq t signal.

End Taylor.

(** ** [03-peak-deconvolution-step3.py] *)

Module Step3.

(** Lines 15-17 *)
Definition _gauss (x : list R) (area center sigma : R) : list R :=
  let sigma_safe := Rmax sigma 1e-9 in
  map (fun xi => area * exp (- 0.5 * ((xi - center) / sigma_safe) ^ 2)) x.

(** [params[-k]] on a tuple *)
Definition from_end (params : list R) (k : nat) : result R :=
  if (length params <? k)%nat then Raise (IndexError "tuple index out of range")
  else
    match nth_error params (length params - k) with
    | Some v => Return v
    | None => Raise (IndexError "tuple index out of range")
    end.

(** [params[lo:hi]] *)
Definition slice (params : list R) (lo hi : nat) : list R :=
  firstn (hi - lo) (skipn lo params).

(** Lines 24-26: one turn of the loop over the components. *)
Definition add_component (x params : list R) (acc : result (list R)) (i : nat)
    : result (list R) :=
  y <- acc ;;
  match slice params (3 * i) (3 * i + 3) with
  | [area_i; t0_i; sigma_i] => Return (Np.add y (_gauss x area_i t0_i sigma_i))
  | _ => Raise (ValueError "not enough values to unpack (expected 3)")
  end.

(** Lines 20-27 *)
Definition _fit_model (x : list R) (params : list R) : result (list R) :=
  let n_comp := ((Z.of_nat (length params) - 2) / 3)%Z in
  c0 <- from_end params 2 ;;
  c1 <- from_end params 1 ;;
  let y := map (fun xi => c0 + c1 * (xi - Np.mean x)) x in
  fold_left (add_component x params) (seq 0 (Z.to_nat n_comp)) (Return y).

(** Line 35 *)
Definition true_components : list (R * R * R) :=
  [(0.50, 34, 4.4); (0.62, 51, 4.2); (0.38, 62, 5.4)].

(** Lines 31-41: baseline, three peaks and noise on 1500 points. *)
Definition step3_signal (G : Generator) (os : entropy G) : list R * list R :=
  let rng := default_rng G (Some 5%Z) os in
  let t := Np.linspace 0 120 1500 in
  let baseline := map (fun ti => 0.025 + 0.00025 * ti + 0.008 * sin (ti / 11)) t in
  let clean :=
    fold_left (fun clean (c : R * R * R) =>
                 let '(area_i, t0_i, sigma_i) := c in
                 Np.add clean (_gauss t area_i t0_i sigma_i))
              true_components baseline in
  let '(noise, _) := normal G 0 0.012 rng in
  (t, Np.add clean (draw (length t) noise)).

(** Lines 72-75: one fitted component. *)
Definition component_at (t popt : list R) (i : nat) : result (list R) :=
  match slice popt (3 * i) (3 * i + 3) with
  | [area_i; t0_i; sigma_i] => Return (_gauss t area_i t0_i sigma_i)
  | _ => Raise (ValueError "not enough values to unpack (expected 3)")
  end.

Fixpoint collect {A : Type} (ms : list (result A)) : result (list A) :=
  match ms with
  | [] => Return []
  | m :: ms' => a <- m ;; rest <- collect ms' ;; Return (a :: rest)
  end.

Record step3_fit : Type := {
  popt : list R;
  y_fit : list R;
  baseline_fit : list R;
  components : list (list R)
}.

(** Lines 43-55: the starting point and the bounds.  [median] is
    [np.median]. *)
Definition start_and_bounds (median : list R -> R) (t y : list R)
    : result (list R * list R * list R) :=
  ymax <- Np.amax y ;;
  ymin <- Np.amin y ;;
  let y_span := Rmax (ymax - ymin) 0.1 in
  t_min <- Np.amin t ;;
  t_max <- Np.amax t ;;
  let p0 :=
    flat_map (fun c : R * R * R => let '(area_i, t0_i, _) := c in
                                   [Rmax area_i 1e-5; t0_i; 1]) true_components
    ++ [median y; 0] in
  let lb :=
    flat_map (fun _ : R * R * R => [0; t_min; 0.4]) true_components
    ++ [ymin - 0.5; - 0.05] in
  let ub :=
    flat_map (fun _ : R * R * R => [y_span * 5; t_max; 25]) true_components
    ++ [ymax + 0.5; 0.05] in
  Return (p0, lb, ub).

(** Lines 43-75 on a given trace: starting point and bounds, the bounded
    fit, and the fitted curve, baseline and components. *)
Definition fit_trace (median : list R -> R) (least_squares : Scipy.solver)
    (t y : list R) : result step3_fit :=
  setup <- start_and_bounds median t y ;;
  let '(p0, lb, ub) := setup in
  popt <- Scipy.curve_fit least_squares _fit_model t y p0 (lb, ub) 120000 ;;
  y_fit <- _fit_model t popt ;;
  c0_fit <- from_end popt 2 ;;
  c1_fit <- from_end popt 1 ;;
  let baseline_fit := map (fun ti => c0_fit + c1_fit * (ti - Np.mean t)) t in
  let n_comp := ((Z.of_nat (length popt) - 2) / 3)%Z in
  components <- collect (map (component_at t popt) (seq 0 (Z.to_nat n_comp))) ;;
  Return {| popt := popt; y_fit := y_fit; baseline_fit := baseline_fit;
            components := components |}.

(** The numerical part of [main], lines 31-75. *)
Definition main (G : Generator) (median : list R -> R)
    (least_squares : Scipy.solver) (os : entropy G) : result step3_fit :=
  let '(t, y) := step3_signal G os in
  fit_trace median least_squares t y.

End Step3.

(** ** The specification's wording of the model and of the moment estimator *)

Module Spec.

(** The parameter vector [area_1, center_1, sigma_1, ..., intercept, slope]. *)
Definition triple (c : R * R * R) : list R :=
  let '(area, center, sigma) := c in [area; center; sigma].

Definition param_vector (comps : list (R * R * R)) (intercept slope : R) : list R :=
  flat_map triple comps ++ [intercept; slope].

(** One area-parameterised kernel with the clamped width. *)
Definition kernel (xi : R) (c : R * R * R) : R :=
  let '(area, center, sigma) := c in
  area * exp (- 0.5 * ((xi - center) / Rmax sigma 1e-9) ^ 2).

(** Baseline plus the sum of the kernels. *)
Definition multi_gauss (comps : list (R * R * R)) (intercept slope : R)
    (x : list R) : list R :=
  map (fun xi => intercept + slope * (xi - Np.mean x)
                 + fold_right Rplus 0 (map (kernel xi) comps)) x.

(** The moment estimator in the words of the specification, for a trace
    [s0] whose largest value is [peak]: samples below a tenth of the peak are
    zeroed; if the area under these weights is not finite or not positive,
    the trace itself is the weights; the centre is the first moment over the
    area clamped at [1e-12]; the width is the root of the variance clamped
    at [floor]. *)
Definition thresholded (peak : R) (s0 : list R) : list R :=
  map (fun v => if Rltb v (0.10 * peak) then 0 else v) s0.

Definition unusable (area : R) : bool := negb (Np.isfinite area) || Rleb area 0.

Definition moment_weights (peak : R) (t s0 : list R) : list R :=
  if unusable (Np.trapezoid (thresholded peak s0) t) then s0 else thresholded peak s0.

Definition moment_estimate (floor peak : R) (t s0 : list R) : R * R * R :=
  let w := moment_weights peak t s0 in
  let area := Np.trapezoid w t in
  let center := Np.trapezoid (Np.mul t w) t / Rmax area 1e-12 in
  let variance :=
    Np.trapezoid (Np.mul (map (fun ti => (ti - center) ^ 2) t) w) t / Rmax area 1e-12 in
  (area, center, sqrt (Rmax variance floor)).

End Spec.

(** ** The grid search as a scan of a list of triples *)

Section Scan.

Import Taylor.

Variable lstsq : lstsq_solver.
Variables (t_mean : R) (t signal : list R).

(** The residual sum of squares of the linear solve at a triple. *)
Definition sse_at (t0 s1 s2 : R) : R :=
  snd (solve_linear lstsq t_mean t signal t0 s1 s2).

Definition visit3 (acc : option best) (p : R * R * R) : option best :=
  let '(t0, s1, s2) := p in visit lstsq t_mean t signal acc t0 s1 s2.

(** What the accumulator holds once the triples [seen] have been visited:
    a valid triple among them, with the solve at that triple, whose residual
    no valid triple among them beats; or nothing, when none of them is
    valid. *)
Definition retained (b : best) (seen : list (R * R * R)) : Prop :=
  best_s1 b < best_s2 b
  /\ In (best_t0 b, best_s1 b, best_s2 b) seen
  /\ solve_linear lstsq t_mean t signal (best_t0 b) (best_s1 b) (best_s2 b)
     = (best_coef b, best_yhat b, best_sse b)
  /\ forall t0 s1 s2, In (t0, s1, s2) seen -> s1 < s2 -> best_sse b <= sse_at t0 s1 s2.

Definition scanned (acc : option best) (seen : list (R * R * R)) : Prop :=
  match acc with
  | None => forall t0 s1 s2, In (t0, s1, s2) seen -> s2 <= s1
  | Some b => retained b seen
  end.

End Scan.

(** The triples of the three grids in the order in which the nested loops
    of lines 159-161 meet them. *)
Definition grid_triples (t0s s1s s2s : list R) : list (R * R * R) :=
  flat_map (fun t0 => flat_map (fun s1 => map (fun s2 => (t0, s1, s2)) s2s) s1s) t0s.

(** Every sample is at least zero. *)
Definition all_nonneg (a : list R) : Prop := Forall (fun v => 0 <= v) a.

(** ** The contract of [np.polyfit] at degree 1 *)

(** The squared error of the line [p = (slope, intercept)] on the points
    [(x, y)]. *)
Definition line_sse (p : R * R) (x y : list R) : R :=
  Np.sum (map (fun d => d ^ 2) (Np.sub (Np.polyval p x) y)).

(** [np.polyfit] divides each column of the Vandermonde matrix by its norm
    before it solves, so the column of times must not be all zero. *)
Definition some_nonzero (x : list R) : Prop := exists xi, In xi x /\ xi <> 0.

(** On such an [x] and a [y] of the same length, [np.polyfit(x, y, 1)]
    returns coefficients that minimise the squared error. *)
Definition least_squares_line (polyfit : list R -> list R -> result (R * R)) : Prop :=
  forall x y, some_nonzero x -> length x = length y ->
    exists p, polyfit x y = Return p /\ forall q, line_sse p x y <= line_sse q x y.

(** On an empty [x] it raises. *)
Definition rejects_empty (polyfit : list R -> list R -> result (R * R)) : Prop :=
  forall y, polyfit [] y = Raise (TypeError "expected non-empty vector for x").

(** A time grid is strictly increasing. *)
Fixpoint increasing (t : list R) : Prop :=
  match t with
  | a :: ((b :: _) as t') => a < b /\ increasing t'
  | _ => True
  end.

(** ** Stand-ins for the external parts

    Concrete, deterministic implementations of the interfaces above, on
    which the model can be run at a given input. *)

(** A generator whose state counts the draws; every normal sample is the
    mean, every uniform sample the lower bound, and a choice takes the first
    elements of the population. *)
Definition counter_rng : Generator := {|
  bitgen := nat;
  entropy := nat;
  seeded := Z.to_nat;
  unseeded := fun n => n;
  normal := fun loc _ g => (fun _ => loc, S g);
  uniform := fun low _ g => (fun _ => low, S g);
  choice := fun population size g =>
    if (length population <? size)%nat
    then Raise (ValueError "Cannot take a larger sample than population when 'replace=False'")
    else Return (firstn size population, S g)
|}.

(** The least-squares line by the normal equations, and [np.polyfit] at
    degree 1 built on it. *)
Definition ols_line (x y : list R) : R * R :=
  let n := INR (length x) in
  let sx := Np.sum x in
  let sy := Np.sum y in
  let sxx := Np.sum (Np.mul x x) in
  let sxy := Np.sum (Np.mul x y) in
  let slope := (n * sxy - sx * sy) / (n * sxx - sx * sx) in
  (slope, (sy - slope * sx) / n).

Definition polyfit_ols (x y : list R) : result (R * R) :=
  match x with
  | [] => Raise (TypeError "expected non-empty vector for x")
  | _ :: _ =>
      if (length x =? length y)%nat then Return (ols_line x y)
      else Raise (TypeError "expected x and y to have same length")
  end.

(** A three-point trace with one spike, for the generator of
    [plot_single_gauss]. *)
Definition tiny_cfg : Taylor.single_cfg := {|
  Taylor.seed := 3;
  Taylor.grid := [0; 1; 2];
  Taylor.t0_true := 1;
  Taylor.sigma_true := 1;
  Taylor.peak_height := 1;
  Taylor.base_level := 0.05;
  Taylor.base_drift := 0.03;
  Taylor.base_ripple := 0.02;
  Taylor.base_period := 1.3;
  Taylor.noise_scale := 0.05;
  Taylor.spike_margin := 1;
  Taylor.spike_count := 1;
  Taylor.spike_low := 0.15;
  Taylor.spike_high := 0.4
|}.

(** A stand-in for [np.median]: the first sample. *)
Definition first_sample (y : list R) : R := hd 0 y.

(** A four-column solver that answers the zero vector. *)
Definition null_lstsq : Taylor.lstsq_solver := fun _ _ => (0, 0, 0, 0).

(** ** The plotted arrays, the trace before the spikes and the order of the scan *)

(** The normalised Gaussian density of width [s] centred at [t0], as the
    columns of [basis_cols] have it. *)
Definition unit_gauss (s t0 xi : R) : R :=
  (1 / (sqrt (2 * PI) * s)) * exp (- 0.5 * ((xi - t0) / s) ^ 2).

(** What the accumulator of the grid search holds, with the order of the
    scan: the retained triple, the valid triples before it, all with a
    larger residual, and the valid triples after it, none with a smaller
    one. *)
Section ScanOrder.

Import Taylor.

Variable lstsq : lstsq_solver.
Variables (t_mean : R) (t signal : list R).

Definition earliest_minimum (b : best) (seen : list (R * R * R)) : Prop :=
  exists before after,
    seen = before ++ (best_t0 b, best_s1 b, best_s2 b) :: after
    /\ best_s1 b < best_s2 b
    /\ best_sse b = sse_at lstsq t_mean t signal (best_t0 b) (best_s1 b) (best_s2 b)
    /\ (forall t0 s1 s2, In (t0, s1, s2) before -> s1 < s2 ->
          best_sse b < sse_at lstsq t_mean t signal t0 s1 s2)
    /\ (forall t0 s1 s2, In (t0, s1, s2) after -> s1 < s2 ->
          best_sse b <= sse_at lstsq t_mean t signal t0 s1 s2).

Definition scanned_in_order (acc : option best) (seen : list (R * R * R)) : Prop :=
  match acc with
  | None => forall t0 s1 s2, In (t0, s1, s2) seen -> s2 <= s1
  | Some b => earliest_minimum b seen
  end.

End ScanOrder.

Module Panels.

(** Lines 59-63 and 76 of [plot_single_gauss]: what the left panel draws. *)
Record single_plot : Type := {
  t_plot : list R;
  signal_plot : list R;
  baseline_plot : list R;
  fit_plot : list R;
  t0_line : R
}.

Definition single_plot_data (t : list R) (f : Taylor.single_fit) : single_plot :=
  let mask := map (fun ti => Rgeb ti 10 && Rleb ti 60) t in
  {| t_plot := map (fun ti => ti - 10) (Np.select mask t);
     signal_plot := Np.select mask (Taylor.sf_signal f);
     baseline_plot := Np.select mask (Taylor.sf_baseline_hat f);
     fit_plot := Np.select mask (Taylor.sf_fit f);
     t0_line := Taylor.sf_t0_est f - 10 |}.

End Panels.

Module Spikes.

Import Taylor.

(** Lines 19-32 of [plot_single_gauss]: the trace before the spikes, and the
    generator as the noise leaves it. *)
Definition clipped_trace (G : Generator) (c : single_cfg) (os : entropy G)
    : result (list R * bitgen G) :=
  let rng := default_rng G (Some (seed c)) os in
  let t := grid c in
  let A_true := peak_height c * (sqrt (2 * PI) * sigma_true c) in
  let peak :=
    map (fun ti => (A_true / (sqrt (2 * PI) * sigma_true c))
                   * exp (- ((ti - t0_true c) ^ 2) / (2 * sigma_true c ^ 2))) t in
  tmax <- Np.amax t ;;
  let baseline :=
    map (fun ti => base_level c + base_drift c * (ti / tmax)
                   + base_ripple c * sin (2 * PI * ti / (tmax * base_period c))) t in
  let '(noise, rng) := normal G 0 (noise_scale c) rng in
  Return (Np.clip0 (Np.add (Np.add peak baseline) (draw (length t) noise)), rng).

End Spikes.

(** [rng.choice(a, size, replace=False)] on a population that is large
    enough returns [size] members of it. *)
Definition chooses_from_population (G : Generator) : Prop :=
  forall (population : list nat) (size : nat) (rng : bitgen G),
    (size <= length population)%nat ->
    exists idx rng',
      choice G population size rng = Return (idx, rng')
      /\ incl idx population /\ length idx = size.

(** A nonlinear solver that is content with its starting point: it rejects
    an infeasible one, evaluates the model there, and ends with status 1. *)
Definition content_solver : Scipy.solver := fun f xdata ydata p0 bounds _ =>
  if Scipy.in_bounds p0 (fst bounds) (snd bounds) then
    fitted <- f xdata p0 ;;
    Return {| Scipy.x := p0;
              Scipy.cost := 0.5 * Np.sum (map (fun d => d ^ 2) (Np.sub fitted ydata));
              Scipy.status := 1;
              Scipy.message := "`gtol` termination condition is satisfied." |}
  else Raise (ValueError "`x0` is infeasible.").

(** ** The line samples in binary64

    The baseline round trip is stated by the specification with a tolerance
    on floats.  Here the samples of a line are computed as NumPy computes
    [intercept + slope * t], on binary64 numbers with one rounding per
    operation, and the tolerance is measured on the exact values that the
    floats stand for. *)

Module Binary64.

Import PrimFloat FloatOps SpecFloat.





End Binary64.

(** * Properties *)

(** ** Comparisons *)

Lemma Rltb_true x y : Rltb x y = true <-> x < y.
Proof. unfold Rltb. destruct (Rlt_dec x y); split; (congruence || lra || auto). Qed.

Lemma Rltb_false x y : Rltb x y = false <-> y <= x.
Proof. unfold Rltb. destruct (Rlt_dec x y); split; (congruence || lra || auto). Qed.

Lemma Rleb_true x y : Rleb x y = true <-> x <= y.
Proof. unfold Rleb. destruct (Rle_dec x y); split; (congruence || lra || auto). Qed.

Lemma Rleb_false x y : Rleb x y = false <-> y < x.
Proof. unfold Rleb. destruct (Rle_dec x y); split; (congruence || lra || auto). Qed.

Lemma Rgeb_true x y : Rgeb x y = true <-> y <= x.
Proof. apply Rleb_true. Qed.

Lemma Rgeb_false x y : Rgeb x y = false <-> x < y.
Proof. apply Rleb_false. Qed.

(** ** The multi-Gaussian model of [03-peak-deconvolution-step3.py] *)

Section FitModel.

Import Step3.

Import Spec.

Lemma flat_triples_length (comps : list (R * R * R)) :
  length (flat_map triple comps) = (3 * length comps)%nat.
Proof.
  induction comps as [|[[a c] s] comps IH]; simpl; [reflexivity|].
  rewrite IH. lia.
Qed.

Lemma param_vector_length comps c0 c1 :
  length (Spec.param_vector comps c0 c1) = (3 * length comps + 2)%nat.
Proof.
  unfold Spec.param_vector. rewrite length_app.
  rewrite flat_triples_length. simpl. lia.
Qed.

Lemma from_end_2 comps c0 c1 : from_end (Spec.param_vector comps c0 c1) 2 = Return c0.
Proof.
  unfold from_end. rewrite param_vector_length.
  destruct (Nat.ltb_spec (3 * length comps + 2) 2); [lia|].
  replace (3 * length comps + 2 - 2)%nat with (length (flat_map triple comps)).
  - unfold Spec.param_vector.
    rewrite nth_error_app2 by lia. rewrite Nat.sub_diag. reflexivity.
  - rewrite flat_triples_length. lia.
Qed.

Lemma from_end_1 comps c0 c1 : from_end (Spec.param_vector comps c0 c1) 1 = Return c1.
Proof.
  unfold from_end. rewrite param_vector_length.
  destruct (Nat.ltb_spec (3 * length comps + 2) 1); [lia|].
  replace (3 * length comps + 2 - 1)%nat with (length (flat_map triple comps) + 1)%nat.
  - unfold Spec.param_vector.
    rewrite nth_error_app2 by lia.
    replace (length (flat_map triple comps) + 1 - length (flat_map triple comps))%nat
      with 1%nat by lia.
    reflexivity.
  - rewrite flat_triples_length. lia.
Qed.

Lemma slice_component (done rest : list (R * R * R)) a c s tail :
  slice (flat_map triple (done ++ (a, c, s) :: rest) ++ tail)
        (3 * length done) (3 * length done + 3) = [a; c; s].
Proof.
  unfold slice.
  replace (3 * length done + 3 - 3 * length done)%nat with 3%nat by lia.
  rewrite flat_map_app, <- app_assoc.
  rewrite skipn_app, flat_triples_length, Nat.sub_diag.
  rewrite skipn_all2 by (rewrite flat_triples_length; lia).
  reflexivity.
Qed.

Lemma n_comp_of_param_vector comps c0 c1 :
  Z.to_nat ((Z.of_nat (length (Spec.param_vector comps c0 c1)) - 2) / 3) = length comps.
Proof.
  rewrite param_vector_length.
  replace (Z.of_nat (3 * length comps + 2) - 2)%Z with (Z.of_nat (length comps) * 3)%Z by lia.
  rewrite Z.div_mul by lia. apply Nat2Z.id.
Qed.

Lemma map2_map {A : Type} (f g : A -> R) (op : R -> R -> R) (l : list A) :
  Np.map2 op (map f l) (map g l) = map (fun a => op (f a) (g a)) l.
Proof. induction l as [|a l IH]; simpl; [reflexivity|]. now rewrite IH. Qed.

Lemma sum_kernels_snoc xi (done : list (R * R * R)) c :
  fold_right Rplus 0 (map (kernel xi) (done ++ [c]))
  = fold_right Rplus 0 (map (kernel xi) done) + kernel xi c.
Proof.
  induction done as [|d done IH]; simpl; [lra|]. rewrite IH. lra.
Qed.

(** The loop of lines 24-26 adds the kernels of the components one by one. *)
Lemma add_components_loop (x tail : list R) (b : R -> R) :
  forall rest done,
    fold_left (add_component x (flat_map triple (done ++ rest) ++ tail))
              (seq (length done) (length rest))
              (Return (map (fun xi => b xi + fold_right Rplus 0 (map (kernel xi) done)) x))
    = Return (map (fun xi => b xi + fold_right Rplus 0 (map (kernel xi) (done ++ rest))) x).
Proof.
  induction rest as [|[[a c] s] rest IH]; intros done.
  - simpl. now rewrite app_nil_r.
  - cbn [length seq fold_left].
    unfold add_component at 2. cbn [bind].
    rewrite slice_component.
    unfold Np.add, _gauss. rewrite map2_map.
    replace (done ++ (a, c, s) :: rest) with ((done ++ [(a, c, s)]) ++ rest)
      by (rewrite <- app_assoc; reflexivity).
    replace (S (length done)) with (length (done ++ [(a, c, s)]))
      by (rewrite length_app; simpl; lia).
    rewrite <- IH. f_equal. f_equal. apply map_ext. intros xi.
    rewrite sum_kernels_snoc. unfold kernel. lra.
Qed.

(** C3: on a parameter vector [area_1, center_1, sigma_1, ..., area_k,
    center_k, sigma_k, intercept, slope] and any grid [x], [_fit_model]
    returns, at each [xi], intercept + slope * (xi - mean x) plus the sum over
    the components of area_i * exp(-0.5 * ((xi - center_i) / max(sigma_i,
    1e-9))^2): the kernel is weighted by the area as it stands, and the
    width is clamped before the division. *)
Theorem fit_model_is_multi_gauss (comps : list (R * R * R)) (intercept slope : R)
    (x : list R) :
  _fit_model x (param_vector comps intercept slope)
  = Return (multi_gauss comps intercept slope x)
  /\ (forall sigma, 0 < Rmax sigma 1e-9)
  /\ (forall area center, _gauss x area center 0 = _gauss x area center 1e-9).
Proof.
  split; [|split].
  2: { intros sigma. unfold Rmax. destruct (Rle_dec sigma 1e-9); lra. }
  2: { intros area center. unfold _gauss.
       replace (Rmax 0 1e-9) with (Rmax 1e-9 1e-9); [reflexivity|].
       unfold Rmax. destruct (Rle_dec 0 1e-9), (Rle_dec 1e-9 1e-9); lra. }
  unfold _fit_model.
  rewrite from_end_2, from_end_1, n_comp_of_param_vector. cbn [bind].
  unfold multi_gauss, param_vector.
  pose proof (add_components_loop x [intercept; slope]
                (fun xi => intercept + slope * (xi - Np.mean x)) comps []) as H.
  cbn [length app] in H. rewrite <- H.
  f_equal. f_equal. apply map_ext. intros xi. simpl. lra.
Qed.

End FitModel.

(** ** The synthetic trace of [plot_single_gauss] *)

Section SingleSignal.

Import Taylor.

Lemma clip0_nonneg (a : list R) : all_nonneg (Np.clip0 a).
Proof.
  unfold all_nonneg, Np.clip0. apply Forall_forall. intros v Hv.
  apply in_map_iff in Hv. destruct Hv as [w [<- _]]. apply Rmax_r.
Qed.

Lemma clip0_length (a : list R) : length (Np.clip0 a) = length a.
Proof. apply length_map. Qed.

Lemma map2_length_same {A B C : Type} (f : A -> B -> C) (a : list A) (b : list B) :
  length a = length b -> length (Np.map2 f a b) = length a.
Proof.
  revert b. induction a as [|u a IH]; intros [|v b] H; simpl in *; try congruence.
  f_equal. apply IH. congruence.
Qed.

Lemma draw_length n f : length (draw n f) = n.
Proof. unfold draw. now rewrite length_map, length_seq. Qed.

Lemma set_nth_length i v a : length (Np.set_nth i v a) = length a.
Proof.
  revert i. induction a as [|w a IH]; intros [|i]; simpl; try reflexivity.
  now rewrite IH.
Qed.

Lemma put_length idx : forall vals a, length (Np.put a idx vals) = length a.
Proof.
  induction idx as [|i idx IH]; intros [|v vals] a; simpl; try reflexivity.
  now rewrite IH, set_nth_length.
Qed.

Lemma iadd_at_length a idx vals a' :
  Np.iadd_at a idx vals = Return a' -> length a' = length a.
Proof.
  unfold Np.iadd_at. destruct (Np.take a idx); simpl; [|discriminate].
  intros H. injection H as <-. apply put_length.
Qed.


Lemma take_in_range (a : list R) (idx : list nat) :
  Forall (fun i => (i < length a)%nat) idx -> is_return (Np.take a idx).
Proof.
  induction 1 as [|i idx Hi _ IH]; simpl; [now eexists|].
  destruct (nth_error a i) as [v|] eqn:Hv.
  - destruct IH as [rest ->]. now eexists.
  - apply nth_error_None in Hv. lia.
Qed.

(** The generator returns a trace once the grid is not empty and the spike
    indices that were drawn lie on the grid. *)
Lemma single_signal_returns (G : Generator) (c : single_cfg) (os : entropy G)
    (idx : list nat) (rng2 : bitgen G) :
  grid c <> [] ->
  choice G (Np.arange (spike_margin c) (length (grid c) - spike_margin c))
         (spike_count c) (snd (normal G 0 (noise_scale c) (seeded G (seed c))))
  = Return (idx, rng2) ->
  Forall (fun i => (i < length (grid c))%nat) idx ->
  is_return (single_signal G c os).
Proof.
  intros Hne Hchoice Hidx. unfold single_signal, default_rng.
  destruct (grid c) as [|t0 t] eqn:Hgrid; [congruence|].
  cbn [Np.amax bind].
  destruct (normal G 0 (noise_scale c) (seeded G (seed c))) as [noise rng1].
  cbn [snd] in Hchoice. rewrite Hchoice. cbn [bind].
  destruct (uniform G (spike_low c) (spike_high c) rng2) as [bumps rng3].
  unfold Np.iadd_at.
  match goal with
  | |- context [Np.take ?a idx] => destruct (take_in_range a idx) as [cur Hcur]
  end.
  - rewrite clip0_length. unfold Np.add.
    rewrite map2_length_same.
    + rewrite map2_length_same by now rewrite !length_map.
      now rewrite length_map.
    + rewrite map2_length_same by now rewrite !length_map.
      now rewrite length_map, draw_length.
  - rewrite Hcur. cbn [bind]. now eexists.
Qed.

End SingleSignal.

(** ** The grid search of [plot_shared_t0_multi_gauss] *)

Section GridSearch.

Import Taylor.

Variable lstsq : lstsq_solver.
Variables (t_mean : R) (t signal : list R).

Local Abbreviation sse_at := (sse_at lstsq t_mean t signal).
Local Abbreviation visit3 := (visit3 lstsq t_mean t signal).
Local Abbreviation retained := (retained lstsq t_mean t signal).
Local Abbreviation scanned := (scanned lstsq t_mean t signal).

Lemma fold_left_flat_map {A B C : Type} (f : A -> B -> A) (g : C -> list B) (l : list C) :
  forall a, fold_left f (flat_map g l) a = fold_left (fun a c => fold_left f (g c) a) l a.
Proof.
  induction l as [|c l IH]; intros a; simpl; [reflexivity|].
  now rewrite fold_left_app, IH.
Qed.

Lemma fold_left_map {A B C : Type} (f : A -> B -> A) (g : C -> B) (l : list C) :
  forall a, fold_left f (map g l) a = fold_left (fun a c => f a (g c)) l a.
Proof. induction l as [|c l IH]; intros a; simpl; [reflexivity|]. apply IH. Qed.

Lemma fold_left_ext {A B : Type} (f g : A -> B -> A) (l : list B) :
  (forall a b, f a b = g a b) -> forall a, fold_left f l a = fold_left g l a.
Proof.
  intros H. induction l as [|b l IH]; intros a; simpl; [reflexivity|].
  now rewrite H, IH.
Qed.

(** The three loops visit the triples of the product in row-major order. *)
Lemma grid_search_flat (t0s s1s s2s : list R) :
  grid_search lstsq t_mean t signal t0s s1s s2s
  = fold_left visit3 (grid_triples t0s s1s s2s) None.
Proof.
  unfold grid_search, grid_triples.
  rewrite fold_left_flat_map. apply fold_left_ext. intros a t0.
  rewrite fold_left_flat_map. apply fold_left_ext. intros a' s1.
  now rewrite fold_left_map.
Qed.

Lemma in_grid_triples t0s s1s s2s t0 s1 s2 :
  In (t0, s1, s2) (grid_triples t0s s1s s2s) <-> In t0 t0s /\ In s1 s1s /\ In s2 s2s.
Proof.
  unfold grid_triples. rewrite in_flat_map. split.
  - intros [a [Ha H]]. apply in_flat_map in H. destruct H as [b [Hb H]].
    apply in_map_iff in H. destruct H as [c [Heq Hc]]. injection Heq as -> -> ->. auto.
  - intros [H0 [H1 H2]]. exists t0. split; [assumption|].
    apply in_flat_map. exists s1. split; [assumption|].
    apply in_map_iff. exists s2. auto.
Qed.

Lemma visit_skips acc t0 s1 s2 :
  s2 <= s1 -> visit lstsq t_mean t signal acc t0 s1 s2 = acc.
Proof.
  intros H. unfold visit. now rewrite (proj2 (Rgeb_true s1 s2) H).
Qed.

Lemma scanned_step acc seen p :
  scanned acc seen -> scanned (visit3 acc p) (seen ++ [p]).
Proof.
  destruct p as [[t0 s1] s2]. intros Hacc. unfold visit3.
  destruct (Rle_dec s2 s1) as [Hskip|Hvalid].
  - rewrite visit_skips by assumption.
    destruct acc as [b|]; simpl in *.
    + destruct Hacc as (Hlt & Hin & Hsol & Hmin). repeat split; auto.
      * apply in_or_app. now left.
      * intros a b1 b2 Hin' Hv. apply in_app_or in Hin'. destruct Hin' as [Hin'|[Heq|[]]].
        -- now apply Hmin.
        -- injection Heq as <- <- <-. lra.
    + intros a b1 b2 Hin'. apply in_app_or in Hin'. destruct Hin' as [Hin'|[Heq|[]]].
      * eapply Hacc; eauto.
      * injection Heq as <- <- <-. assumption.
  - assert (Hlt : s1 < s2) by lra.
    unfold visit. rewrite (proj2 (Rgeb_false s1 s2) Hlt).
    destruct (solve_linear lstsq t_mean t signal t0 s1 s2) as [[coef yhat] sse] eqn:Hsol.
    assert (Hsse : sse_at t0 s1 s2 = sse) by (unfold sse_at; now rewrite Hsol).
    destruct acc as [b|]; simpl in *.
    + destruct Hacc as (Hblt & Hin & Hbsol & Hmin).
      destruct (Rltb sse (best_sse b)) eqn:Hcmp; simpl.
      * apply Rltb_true in Hcmp. repeat split; simpl; auto.
        -- apply in_or_app. right. now left.
        -- intros a b1 b2 Hin' Hv. apply in_app_or in Hin'. destruct Hin' as [Hin'|[Heq|[]]].
           ++ specialize (Hmin _ _ _ Hin' Hv). lra.
           ++ injection Heq as <- <- <-. lra.
      * apply Rltb_false in Hcmp. repeat split; auto.
        -- apply in_or_app. now left.
        -- intros a b1 b2 Hin' Hv. apply in_app_or in Hin'. destruct Hin' as [Hin'|[Heq|[]]].
           ++ now apply Hmin.
           ++ injection Heq as <- <- <-. lra.
    + repeat split; simpl; auto.
      * apply in_or_app. right. now left.
      * intros a b1 b2 Hin' Hv. apply in_app_or in Hin'. destruct Hin' as [Hin'|[Heq|[]]].
        -- specialize (Hacc _ _ _ Hin'). lra.
        -- injection Heq as <- <- <-. lra.
Qed.

Lemma scanned_fold (l : list (R * R * R)) :
  forall acc seen, scanned acc seen -> scanned (fold_left visit3 l acc) (seen ++ l).
Proof.
  induction l as [|p l IH]; intros acc seen H; simpl.
  - now rewrite app_nil_r.
  - replace (seen ++ p :: l) with ((seen ++ [p]) ++ l) by (rewrite <- app_assoc; reflexivity).
    apply IH. now apply scanned_step.
Qed.

Lemma grid_search_scanned (t0s s1s s2s : list R) :
  scanned (grid_search lstsq t_mean t signal t0s s1s s2s) (grid_triples t0s s1s s2s).
Proof.
  rewrite grid_search_flat.
  apply (scanned_fold (grid_triples t0s s1s s2s) None []).
  simpl. intros ? ? ? [].
Qed.

Lemma grid_search_retains (t0s s1s s2s : list R) (t0 s1 s2 : R) :
  In t0 t0s -> In s1 s1s -> In s2 s2s -> s1 < s2 ->
  exists b, grid_search lstsq t_mean t signal t0s s1s s2s = Some b.
Proof.
  intros H0 H1 H2 Hlt.
  pose proof (grid_search_scanned t0s s1s s2s) as H.
  assert (Hin : In (t0, s1, s2) (grid_triples t0s s1s s2s))
    by (apply in_grid_triples; auto).
  destruct (grid_search lstsq t_mean t signal t0s s1s s2s) as [b|]; simpl in H.
  - now exists b.
  - specialize (H _ _ _ Hin). lra.
Qed.

(** C1: take any triple of the three grids with [s1 < s2].  Then the search
    retains a result; its residual sum of squares is at most the residual of
    the least-squares solve at that triple; the retained triple is itself a
    triple of the grids with [best_s1 < best_s2], and the retained
    coefficients, fitted curve and residual are those of the solve at it.
    A triple with [s1 >= s2] leaves the accumulator as it was. *)
Theorem grid_search_global_minimum (t0s s1s s2s : list R) (t0 s1 s2 : R) :
  In t0 t0s -> In s1 s1s -> In s2 s2s -> s1 < s2 ->
  (exists b,
      grid_search lstsq t_mean t signal t0s s1s s2s = Some b
      /\ best_sse b <= snd (solve_linear lstsq t_mean t signal t0 s1 s2)
      /\ best_s1 b < best_s2 b
      /\ In (best_t0 b) t0s /\ In (best_s1 b) s1s /\ In (best_s2 b) s2s
      /\ solve_linear lstsq t_mean t signal (best_t0 b) (best_s1 b) (best_s2 b)
         = (best_coef b, best_yhat b, best_sse b))
  /\ (forall acc u v w, v >= w -> visit lstsq t_mean t signal acc u v w = acc).
Proof.
  intros H0 H1 H2 Hlt. split.
  - pose proof (grid_search_scanned t0s s1s s2s) as H.
    assert (Hin : In (t0, s1, s2) (grid_triples t0s s1s s2s))
      by (apply in_grid_triples; auto).
    destruct (grid_search lstsq t_mean t signal t0s s1s s2s) as [b|]; simpl in H.
    + destruct H as (Hb & Hbin & Hsol & Hmin).
      exists b. split; [reflexivity|]. split; [now apply Hmin|].
      apply in_grid_triples in Hbin. tauto.
    + specialize (H _ _ _ Hin). lra.
  - intros acc u v w Hge. apply visit_skips. lra.
Qed.

(** Without a valid triple the scan ends as it began. *)
End GridSearch.

(** ** The grids of lines 148-150 *)

Section Grids.

Import Taylor.

Lemma linspace_first (a b : R) (n : nat) : (1 <= n)%nat -> In a (Np.linspace a b n).
Proof.
  destruct n as [|[|d]]; intros H; [lia|now left|].
  unfold Np.linspace. apply in_or_app. left.
  cbn [seq map]. left. simpl. lra.
Qed.

Lemma linspace_last (a b : R) (n : nat) : (2 <= n)%nat -> In b (Np.linspace a b n).
Proof.
  destruct n as [|[|d]]; intros H; try lia.
  unfold Np.linspace. apply in_or_app. right. now left.
Qed.

Lemma linspace_bounds (a b : R) (n : nat) (v : R) :
  a <= b -> In v (Np.linspace a b n) -> a <= v <= b.
Proof.
  intros Hab. destruct n as [|[|d]]; simpl.
  - intros [].
  - intros [<-|[]]. lra.
  - intros [<-|Hin].
    + rewrite Rmult_0_l. lra.
    + apply in_app_or in Hin. destruct Hin as [Hin|[<-|[]]]; [|lra].
      apply in_map_iff in Hin. destruct Hin as [i [<- Hi]].
      apply in_seq in Hi.
      set (D := match d with O => 1 | S _ => INR d + 1 end).
      assert (HD : D = INR (S d)) by (unfold D; destruct d; simpl; lra).
      assert (Hpos : 0 < D) by (rewrite HD; apply lt_0_INR; lia).
      assert (Hi0 : 0 <= INR i) by apply pos_INR.
      assert (HiD : INR i <= D) by (rewrite HD; apply le_INR; lia).
      assert (Hfrac : 0 <= INR i * ((b - a) / D) <= b - a).
      { replace (INR i * ((b - a) / D)) with ((INR i / D) * (b - a)) by (field; lra).
        assert (0 <= INR i / D <= 1).
        { split.
          - apply Rmult_le_pos; [lra|]. left. now apply Rinv_0_lt_compat.
          - apply Rmult_le_reg_r with D; [lra|]. field_simplify; lra. }
        nra. }
      lra.
Qed.

Lemma fold_min_le (l : list R) : forall x,
  fold_left Rmin l x <= x /\ forall v, In v l -> fold_left Rmin l x <= v.
Proof.
  induction l as [|w l IH]; intros x; simpl.
  - split; [lra|intros v []].
  - destruct (IH (Rmin x w)) as [H1 H2]. split.
    + pose proof (Rmin_l x w). lra.
    + intros v [<-|Hv]; [|now apply H2]. pose proof (Rmin_r x w). lra.
Qed.

Lemma fold_min_in (l : list R) : forall x,
  fold_left Rmin l x = x \/ In (fold_left Rmin l x) l.
Proof.
  induction l as [|w l IH]; intros x; simpl; [now left|].
  destruct (IH (Rmin x w)) as [H|H]; [|now right; right].
  rewrite H. unfold Rmin. destruct (Rle_dec x w); [now left|right; now left].
Qed.

Lemma fold_max_ge (l : list R) : forall x,
  x <= fold_left Rmax l x /\ forall v, In v l -> v <= fold_left Rmax l x.
Proof.
  induction l as [|w l IH]; intros x; simpl.
  - split; [lra|intros v []].
  - destruct (IH (Rmax x w)) as [H1 H2]. split.
    + pose proof (Rmax_l x w). lra.
    + intros v [<-|Hv]; [|now apply H2]. pose proof (Rmax_r x w). lra.
Qed.

Lemma fold_max_in (l : list R) : forall x,
  fold_left Rmax l x = x \/ In (fold_left Rmax l x) l.
Proof.
  induction l as [|w l IH]; intros x; simpl; [now left|].
  destruct (IH (Rmax x w)) as [H|H]; [|now right; right].
  rewrite H. unfold Rmax. destruct (Rle_dec x w); [right; now left|now left].
Qed.

Lemma amin_least (l : list R) (m : R) :
  In m l -> (forall v, In v l -> m <= v) -> Np.amin l = Return m.
Proof.
  destruct l as [|x l]; [intros []|]. intros Hin Hle. unfold Np.amin. f_equal.
  destruct (fold_min_le l x) as [H1 H2].
  assert (Hup : fold_left Rmin l x <= m) by (destruct Hin as [<-|Hin]; auto).
  assert (Hlow : m <= fold_left Rmin l x).
  { apply Hle. destruct (fold_min_in l x) as [->|H]; [now left|now right]. }
  lra.
Qed.

Lemma amax_greatest (l : list R) (m : R) :
  In m l -> (forall v, In v l -> v <= m) -> Np.amax l = Return m.
Proof.
  destruct l as [|x l]; [intros []|]. intros Hin Hle. unfold Np.amax. f_equal.
  destruct (fold_max_ge l x) as [H1 H2].
  assert (Hlow : m <= fold_left Rmax l x) by (destruct Hin as [<-|Hin]; auto).
  assert (Hup : fold_left Rmax l x <= m).
  { apply Hle. destruct (fold_max_in l x) as [->|H]; [now left|now right]. }
  lra.
Qed.

Lemma grid_ends (sigma_est : R) :
  0 <= sigma_est ->
  Rmax 0.04 (0.15 * sigma_est) <= Rmax 0.20 (0.7 * sigma_est)
  /\ Rmax 0.30 (0.8 * sigma_est) <= Rmax 1.0 (2.2 * sigma_est)
  /\ Rmax 0.04 (0.15 * sigma_est) < Rmax 1.0 (2.2 * sigma_est).
Proof.
  intros H. unfold Rmax.
  destruct (Rle_dec 0.04 (0.15 * sigma_est)), (Rle_dec 0.20 (0.7 * sigma_est)),
    (Rle_dec 0.30 (0.8 * sigma_est)), (Rle_dec 1.0 (2.2 * sigma_est)); lra.
Qed.

Lemma unpack_best_some (t_mean : R) (t : list R) (b : best) :
  is_return (unpack_best t_mean t (Some b)).
Proof.
  unfold unpack_best, basis_cols. destruct (best_coef b) as [[[A1 A2] c0] c1].
  eexists. reflexivity.
Qed.

(** C10: for a moment estimate [sigma_est >= 0], the smallest narrow width of
    the grid is [max(0.04, 0.15 * sigma_est)], the largest wide width is
    [max(1.0, 2.2 * sigma_est)], and the first is below the second.  So the
    grids hold a triple with [s1 < s2], the accumulator is set when the scan
    ends, and the unpacking of line 173 returns: the branch in which no
    triple is valid cannot be taken on these grids. *)
Theorem constructed_grids_have_valid_triple (lstsq : lstsq_solver)
    (t signal : list R) (t0_est sigma_est : R) :
  0 <= sigma_est ->
  Np.amin (s1_grid sigma_est) = Return (Rmax 0.04 (0.15 * sigma_est))
  /\ Np.amax (s2_grid sigma_est) = Return (Rmax 1.0 (2.2 * sigma_est))
  /\ Rmax 0.04 (0.15 * sigma_est) < Rmax 1.0 (2.2 * sigma_est)
  /\ (exists t0 s1 s2,
        In t0 (t0_grid t0_est) /\ In s1 (s1_grid sigma_est)
        /\ In s2 (s2_grid sigma_est) /\ s1 < s2)
  /\ (exists b,
        grid_search lstsq (Np.mean t) t signal
          (t0_grid t0_est) (s1_grid sigma_est) (s2_grid sigma_est) = Some b)
  /\ is_return (search_and_unpack lstsq t signal
                  (t0_grid t0_est) (s1_grid sigma_est) (s2_grid sigma_est)).
Proof.
  intros Hs. destruct (grid_ends sigma_est Hs) as (H1 & H2 & H3).
  assert (Hin0 : In (t0_est - 0.3) (t0_grid t0_est))
    by (apply linspace_first; lia).
  assert (Hin1 : In (Rmax 0.04 (0.15 * sigma_est)) (s1_grid sigma_est))
    by (apply linspace_first; lia).
  assert (Hin2 : In (Rmax 1.0 (2.2 * sigma_est)) (s2_grid sigma_est))
    by (apply linspace_last; lia).
  destruct (grid_search_retains lstsq (Np.mean t) t signal _ _ _ _ _ _
              Hin0 Hin1 Hin2 H3) as [b Hb].
  repeat split.
  - apply amin_least; [assumption|].
    intros v Hv. apply (linspace_bounds _ _ _ _ H1 Hv).
  - apply amax_greatest; [assumption|].
    intros v Hv. apply (linspace_bounds _ _ _ _ H2 Hv).
  - assumption.
  - eauto 10.
  - eauto.
  - unfold search_and_unpack. rewrite Hb. apply unpack_best_some.
Qed.

End Grids.

(** ** The moment estimator *)

Section Moments.

Import Taylor.

Lemma where_ge_thresholded (peak : R) (s0 : list R) :
  Np.where_ge (0.10 * peak) s0 = Spec.thresholded peak s0.
Proof.
  unfold Np.where_ge, Spec.thresholded. apply map_ext. intros v.
  destruct (Rltb v (0.10 * peak)) eqn:H.
  - apply Rltb_true in H. now rewrite (proj2 (Rgeb_false v (0.10 * peak)) H).
  - apply Rltb_false in H. now rewrite (proj2 (Rgeb_true v (0.10 * peak)) H).
Qed.

Lemma amax_is_max (s0 : list R) :
  s0 <> [] ->
  exists peak, Np.amax s0 = Return peak /\ In peak s0 /\ forall v, In v s0 -> v <= peak.
Proof.
  destruct s0 as [|x l]; [congruence|]. intros _.
  exists (fold_left Rmax l x). split; [reflexivity|].
  destruct (fold_max_ge l x) as [H1 H2]. split.
  - destruct (fold_max_in l x) as [->|H]; [now left|now right].
  - intros v [<-|Hv]; auto.
Qed.

(** C2: on a non-empty baseline-subtracted trace [s0] over the grid [t], both
    copies of the moment estimator take as weights the samples of [s0] with
    those below 10% of [max(s0)] zeroed, fall back to [s0] itself when the
    trapezoidal area of these weights is not finite or is [<= 0], return the
    centre [trapz(t * w, t) / max(area, 1e-12)], and return the width
    [sqrt(max(variance, floor))], the floor being [1e-12] in
    [plot_single_gauss] and [1e-6] in [plot_shared_t0_multi_gauss]. *)
Theorem moment_estimators_follow_the_steps (t s0 : list R) :
  s0 <> [] ->
  exists peak,
    Np.amax s0 = Return peak
    /\ In peak s0 /\ (forall v, In v s0 -> v <= peak)
    /\ single_moments t s0 = Return (Spec.moment_estimate 1e-12 peak t s0)
    /\ shared_moments t s0 = Return (Spec.moment_estimate 1e-6 peak t s0).
Proof.
  intros Hne. destruct (amax_is_max s0 Hne) as (peak & Hmax & Hin & Hle).
  exists peak. repeat split; try assumption.
  - unfold single_moments. rewrite Hmax. cbn [bind].
    rewrite where_ge_thresholded.
    unfold Spec.moment_estimate, Spec.moment_weights, Spec.unusable.
    destruct (negb (Np.isfinite _) || Rleb _ 0); reflexivity.
  - unfold shared_moments. rewrite Hmax. cbn [bind].
    rewrite where_ge_thresholded.
    unfold Spec.moment_estimate, Spec.moment_weights, Spec.unusable.
    destruct (negb (Np.isfinite _) || Rleb _ 0); reflexivity.
Qed.

End Moments.

(** ** Sums *)

Section Sums.

Lemma sum_shift (l : list R) : forall a, fold_left Rplus l a = a + fold_left Rplus l 0.
Proof.
  induction l as [|v l IH]; intros a; simpl; [lra|].
  rewrite (IH (a + v)), (IH (0 + v)). lra.
Qed.

Lemma sum_nil : Np.sum [] = 0.
Proof. reflexivity. Qed.

Lemma sum_cons (v : R) (l : list R) : Np.sum (v :: l) = v + Np.sum l.
Proof. unfold Np.sum. simpl. rewrite sum_shift. lra. Qed.

Lemma sum_squares_nonneg {A : Type} (f : A -> R) (l : list A) :
  0 <= Np.sum (map (fun a => f a ^ 2) l).
Proof.
  induction l as [|a l IH]; cbn [map]; [rewrite sum_nil; lra|].
  rewrite sum_cons. pose proof (pow2_ge_0 (f a)). lra.
Qed.

Lemma sum_squares_zero {A : Type} (f : A -> R) (l : list A) :
  Np.sum (map (fun a => f a ^ 2) l) = 0 -> forall a, In a l -> f a = 0.
Proof.
  induction l as [|b l IH]; cbn [map]; [intros _ a []|].
  rewrite sum_cons. intros H a Ha.
  pose proof (pow2_ge_0 (f b)) as Hb.
  pose proof (sum_squares_nonneg f l) as Hl.
  destruct Ha as [<-|Ha].
  - assert (Hz : f b ^ 2 = 0) by lra.
    simpl in Hz. rewrite Rmult_1_r in Hz. now apply Rsqr_0_uniq.
  - apply IH; [lra|assumption].
Qed.

End Sums.

(** ** The baseline fit *)

Section LineFit.

Import Taylor.

Lemma map2_combine {A B C : Type} (f : A -> R) (op : R -> B -> C) (x : list A) :
  forall y, Np.map2 op (map f x) y = map (fun xy => op (f (fst xy)) (snd xy)) (combine x y).
Proof.
  induction x as [|a x IH]; intros [|b y]; simpl; try reflexivity.
  now rewrite IH.
Qed.

Lemma line_sse_pairs (p : R * R) (x y : list R) :
  line_sse p x y
  = Np.sum (map (fun xy => (fst p * fst xy + snd p - snd xy) ^ 2) (combine x y)).
Proof.
  unfold line_sse, Np.sub, Np.polyval. rewrite map2_combine, map_map. reflexivity.
Qed.










End LineFit.

(** ** The normal equations give a least-squares line *)

Section NormalEquations.

Lemma residual_sums (p1 p0 : R) :
  forall x y : list R, length x = length y ->
    Np.sum (map (fun xy => p1 * fst xy + p0 - snd xy) (combine x y))
    = p1 * Np.sum x + p0 * INR (length x) - Np.sum y
    /\ Np.sum (map (fun xy => fst xy * (p1 * fst xy + p0 - snd xy)) (combine x y))
       = p1 * Np.sum (Np.mul x x) + p0 * Np.sum x - Np.sum (Np.mul x y).
Proof.
  unfold Np.mul.
  induction x as [|a x IH]; intros [|b y] H; simpl in H; try discriminate.
  - simpl. rewrite !sum_nil. split; lra.
  - destruct (IH y) as [H1 H2]; [congruence|].
    cbn [combine map Np.map2 length fst snd].
    rewrite !sum_cons, H1, H2, S_INR. split; lra.
Qed.

Lemma sse_expansion (p q : R * R) (l : list (R * R)) :
  Np.sum (map (fun xy => (fst q * fst xy + snd q - snd xy) ^ 2) l)
  = Np.sum (map (fun xy => (fst p * fst xy + snd p - snd xy) ^ 2) l)
    + 2 * (fst q - fst p)
      * Np.sum (map (fun xy => fst xy * (fst p * fst xy + snd p - snd xy)) l)
    + 2 * (snd q - snd p)
      * Np.sum (map (fun xy => fst p * fst xy + snd p - snd xy) l)
    + Np.sum (map (fun xy => ((fst q - fst p) * fst xy + (snd q - snd p)) ^ 2) l).
Proof.
  induction l as [|[a b] l IH]; cbn [map fst snd].
  - rewrite !sum_nil. lra.
  - rewrite !sum_cons, IH. ring.
Qed.

Lemma spread_sum (m : R) (x : list R) :
  Np.sum (map (fun xi => (xi - m) ^ 2) x)
  = Np.sum (Np.mul x x) - 2 * m * Np.sum x + INR (length x) * m ^ 2.
Proof.
  unfold Np.mul.
  induction x as [|a x IH].
  - simpl. rewrite !sum_nil. lra.
  - unfold Np.mul in *. cbn [map Np.map2 length].
    rewrite !sum_cons, IH, S_INR. ring.
Qed.

Lemma constant_products (m : R) :
  forall x y : list R, length x = length y ->
    (forall xi, In xi x -> xi = m) ->
    Np.sum (Np.mul x y) = m * Np.sum y /\ Np.sum x = INR (length x) * m.
Proof.
  unfold Np.mul.
  induction x as [|a x IH]; intros [|b y] H Hall; simpl in H; try discriminate.
  - simpl. rewrite !sum_nil. split; lra.
  - destruct (IH y) as [H1 H2]; [congruence|intros xi Hxi; apply Hall; now right|].
    assert (Ha : a = m) by (apply Hall; now left).
    cbn [Np.map2 length].
    rewrite !sum_cons, H1, H2, S_INR, Ha. split; ring.
Qed.

(** When the times have no spread, they all coincide, and the numerator of
    the slope vanishes with its denominator. *)
Lemma no_spread_no_covariance (x y : list R) :
  x <> [] -> length x = length y ->
  INR (length x) * Np.sum (Np.mul x x) - Np.sum x * Np.sum x = 0 ->
  INR (length x) * Np.sum (Np.mul x y) - Np.sum x * Np.sum y = 0.
Proof.
  intros Hne Hlen HD.
  assert (Hn : 0 < INR (length x)).
  { apply lt_0_INR. destruct x; [congruence|simpl; lia]. }
  set (m := Np.sum x / INR (length x)).
  assert (Hspread : Np.sum (map (fun xi => (xi - m) ^ 2) x) = 0).
  { rewrite spread_sum. unfold m.
    apply Rmult_eq_reg_l with (INR (length x)); [|lra].
    rewrite Rmult_0_r, <- HD. field. lra. }
  assert (Hall : forall xi, In xi x -> xi = m).
  { intros xi Hxi.
    pose proof (sum_squares_zero (fun v => v - m) x Hspread xi Hxi) as H.
    simpl in H. lra. }
  destruct (constant_products m x y Hlen Hall) as [H1 H2].
  rewrite H1, H2. ring.
Qed.

Theorem ols_line_minimises (x y : list R) (q : R * R) :
  x <> [] -> length x = length y ->
  line_sse (ols_line x y) x y <= line_sse q x y.
Proof.
  intros Hne Hlen.
  assert (Hn : 0 < INR (length x)).
  { apply lt_0_INR. destruct x; [congruence|simpl; lia]. }
  rewrite !line_sse_pairs, (sse_expansion (ols_line x y) q).
  destruct (residual_sums (fst (ols_line x y)) (snd (ols_line x y)) x y Hlen) as [Hr Hxr].
  pose proof (no_spread_no_covariance x y Hne Hlen) as Hdeg.
  unfold ols_line in *. cbn [fst snd] in *.
  set (n := INR (length x)) in *.
  set (sx := Np.sum x) in *. set (sy := Np.sum y) in *.
  set (sxx := Np.sum (Np.mul x x)) in *. set (sxy := Np.sum (Np.mul x y)) in *.
  set (slope := (n * sxy - sx * sy) / (n * sxx - sx * sx)) in *.
  assert (Hslope : slope * (n * sxx - sx * sx) = n * sxy - sx * sy).
  { destruct (Req_dec (n * sxx - sx * sx) 0) as [HD|HD].
    - rewrite (Hdeg HD), HD. ring.
    - unfold slope. field. exact HD. }
  assert (Hr0 : slope * sx + (sy - slope * sx) / n * n - sy = 0) by (field; lra).
  assert (Hxr0 : slope * sxx + (sy - slope * sx) / n * sx - sxy = 0).
  { apply Rmult_eq_reg_l with n; [|lra]. rewrite Rmult_0_r.
    replace (n * (slope * sxx + (sy - slope * sx) / n * sx - sxy))
      with (slope * (n * sxx - sx * sx) - (n * sxy - sx * sy)) by (field; lra).
    lra. }
  rewrite Hr, Hxr, Hr0, Hxr0.
  match goal with
  | |- _ <= _ + _ + _ + Np.sum (map (fun xy => (?f) ^ 2) ?l) =>
      pose proof (sum_squares_nonneg (fun xy : R * R => f) l)
  end.
  lra.
Qed.

Lemma polyfit_ols_least_squares : least_squares_line polyfit_ols.
Proof.
  intros x y (xi & Hin & _) Hlen.
  assert (Hne : x <> []) by (destruct x; [contradiction|discriminate]).
  exists (ols_line x y). split.
  - unfold polyfit_ols. destruct x; [congruence|].
    now rewrite Hlen, Nat.eqb_refl.
  - intros q. now apply ols_line_minimises.
Qed.

Lemma polyfit_ols_rejects_empty : rejects_empty polyfit_ols.
Proof. intros y. reflexivity. Qed.

End NormalEquations.

(** ** The primitives on small inputs *)

Section Examples.

Import Taylor Step3.

Ltac decide_order :=
  repeat match goal with
  | |- context [Rgeb ?a ?b] =>
      first [ rewrite (proj2 (Rgeb_true a b)) by lra
            | rewrite (proj2 (Rgeb_false a b)) by lra ]
  | |- context [Rleb ?a ?b] =>
      first [ rewrite (proj2 (Rleb_true a b)) by lra
            | rewrite (proj2 (Rleb_false a b)) by lra ]
  | |- context [Rmax ?a ?b] =>
      first [ rewrite (Rmax_left a b) by lra | rewrite (Rmax_right a b) by lra ]
  end.

Example linspace_three : Np.linspace 0 1 3 = [0; 0.5; 1].
Proof. unfold Np.linspace. simpl. repeat (f_equal; try lra). Qed.

Lemma trapezoid_three (y0 y1 y2 x0 x1 x2 : R) :
  Np.trapezoid [y0; y1; y2] [x0; x1; x2]
  = (x1 - x0) * (y1 + y0) / 2 + (x2 - x1) * (y2 + y1) / 2.
Proof. unfold Np.trapezoid, Np.sum. simpl. lra. Qed.

Example trapezoid_triangle : Np.trapezoid [0; 1; 0] [0; 1; 2] = 1.
Proof. rewrite trapezoid_three. lra. Qed.

(** Of two additions at one index, only the later is kept. *)
Example iadd_at_twice :
  Np.iadd_at [1; 2; 3] [1%nat; 1%nat] [10; 20] = Return [1; 22; 3].
Proof. unfold Np.iadd_at. simpl. repeat (f_equal; try lra). Qed.

Example iadd_at_out_of_bounds :
  Np.iadd_at [1; 2; 3] [3%nat] [10] = Raise (IndexError "index is out of bounds").
Proof. reflexivity. Qed.

Example amax_empty :
  Np.amax []
  = Raise (ValueError "zero-size array to reduction operation maximum which has no identity").
Proof. reflexivity. Qed.

Example select_edges : Np.select (single_edge_mask [5; 40; 90]) [5; 40; 90] = [5; 90].
Proof. unfold single_edge_mask. cbn [map]. decide_order. reflexivity. Qed.

Example grid_order :
  grid_triples [1; 2] [3] [4; 5] = [(1, 3, 4); (1, 3, 5); (2, 3, 4); (2, 3, 5)].
Proof. reflexivity. Qed.

(** A parameter tuple too short for [params[-2]]. *)
Example fit_model_short :
  _fit_model [0; 1] [5] = Raise (IndexError "tuple index out of range").
Proof. reflexivity. Qed.

Example fit_model_baseline_only : _fit_model [0; 2] [3; 1] = Return [2; 4].
Proof.
  unfold _fit_model. simpl. unfold Np.mean, Np.sum. simpl.
  repeat (f_equal; try lra).
Qed.

(** A single spike: all the weight sits on one sample, the variance is zero
    and the width is the root of the floor of each path. *)
Example moments_of_a_spike :
  single_moments [0; 1; 2] [0; 1; 0] = Return (1, 1, sqrt 1e-12)
  /\ shared_moments [0; 1; 2] [0; 1; 0] = Return (1, 1, sqrt 1e-6).
Proof.
  unfold single_moments, shared_moments.
  cbn [Np.amax fold_left bind Np.where_ge map Np.isfinite negb orb].
  decide_order.
  rewrite !trapezoid_three.
  decide_order.
  cbn [Np.mul Np.map2 map]. rewrite !trapezoid_three.
  decide_order.
  split; do 2 f_equal; try (f_equal; lra).
Qed.

(** The normal equations on two points. *)
Example ols_two_points : ols_line [0; 1] [1; 3] = (2, 1).
Proof.
  unfold ols_line, Np.mul, Np.sum. simpl. f_equal; field.
Qed.

End Examples.

(** ** The theorems at concrete inputs *)

Section Instances.

Import Taylor Step3.

Ltac real_order :=
  unfold Rmax, Rmin; repeat (destruct (Rle_dec _ _)); lra.

Lemma grid_search_global_minimum_witness :
  exists b,
    grid_search null_lstsq 0 [0] [0] [0] [1] [2] = Some b
    /\ best_sse b <= snd (solve_linear null_lstsq 0 [0] [0] 0 1 2)
    /\ best_s1 b < best_s2 b.
Proof.
  destruct (grid_search_global_minimum null_lstsq 0 [0] [0] [0] [1] [2] 0 1 2)
    as [(b & H1 & H2 & H3 & _) _].
  - now left.
  - now left.
  - now left.
  - lra.
  - exists b. auto.
Defined.

Lemma moment_estimators_follow_the_steps_witness :
  exists peak,
    Np.amax [0; 1; 0] = Return peak
    /\ single_moments [0; 1; 2] [0; 1; 0]
       = Return (Spec.moment_estimate 1e-12 peak [0; 1; 2] [0; 1; 0])
    /\ shared_moments [0; 1; 2] [0; 1; 0]
       = Return (Spec.moment_estimate 1e-6 peak [0; 1; 2] [0; 1; 0]).
Proof.
  destruct (moment_estimators_follow_the_steps [0; 1; 2] [0; 1; 0])
    as (peak & H1 & _ & _ & H2 & H3).
  - discriminate.
  - exists peak. auto.
Defined.



(** A configuration with non-zero widths and period and a positive time on
    its grid divides by no zero; the literals of the script are one. *)
Lemma positive_time_no_zero_divisor (c : single_cfg) (v : R) :
  sigma_true c <> 0 -> base_period c <> 0 -> In v (grid c) -> 0 < v ->
  no_zero_divisor c.
Proof.
  intros Hs Hp Hin Hv. split; [exact Hs|]. split; [exact Hp|]. intros H0.
  destruct (amax_is_max (grid c)) as (m & Hm & _ & Hmax).
  - intros Hnil. rewrite Hnil in Hin. exact Hin.
  - rewrite Hm in H0. injection H0 as ->. specialize (Hmax v Hin). lra.
Qed.

Lemma source_cfg_has_no_zero_divisor : no_zero_divisor source_single_cfg.
Proof.
  apply (positive_time_no_zero_divisor source_single_cfg 120).
  - change (sigma_true source_single_cfg) with 8. lra.
  - change (base_period source_single_cfg) with 1.3. lra.
  - change (grid source_single_cfg) with (Np.linspace 0 120 600).
    apply linspace_last. lia.
  - lra.
Qed.


Lemma constructed_grids_have_valid_triple_witness :
  Rmax 0.04 (0.15 * 1) < Rmax 1.0 (2.2 * 1)
  /\ is_return (search_and_unpack null_lstsq [0] [0] (t0_grid 0) (s1_grid 1) (s2_grid 1)).
Proof.
  destruct (constructed_grids_have_valid_triple null_lstsq [0] [0] 0 1)
    as (_ & _ & H1 & _ & _ & H2).
  - lra.
  - split; assumption.
Defined.


End Instances.

(** ** The round trip in binary64 *)

Section Rounding.

Import PrimFloat FloatOps SpecFloat.
Import Binary64.






End Rounding.

(** * Further properties *)

Section FitModelEdges.

Import Step3 Spec.

Lemma from_end_short (params : list R) (k : nat) :
  (length params < k)%nat -> from_end params k = Raise (IndexError "tuple index out of range").
Proof.
  intros H. unfold from_end. destruct (Nat.ltb_spec (length params) k); [reflexivity|lia].
Qed.

Lemma from_end_returns (params : list R) (k : nat) :
  (1 <= k <= length params)%nat -> is_return (from_end params k).
Proof.
  intros H. unfold from_end. destruct (Nat.ltb_spec (length params) k); [lia|].
  destruct (nth_error params (length params - k)) as [v|] eqn:Hv; [now eexists|].
  apply nth_error_None in Hv. lia.
Qed.

Lemma from_end_app (front back : list R) (k : nat) :
  (1 <= k <= length back)%nat -> from_end (front ++ back) k = from_end back k.
Proof.
  intros H. unfold from_end. rewrite length_app.
  destruct (Nat.ltb_spec (length front + length back) k); [lia|].
  destruct (Nat.ltb_spec (length back) k); [lia|].
  rewrite nth_error_app2 by lia.
  replace (length front + length back - k - length front)%nat
    with (length back - k)%nat by lia.
  reflexivity.
Qed.

Lemma n_comp_bound (params : list R) :
  (2 <= length params)%nat ->
  (3 * Z.to_nat ((Z.of_nat (length params) - 2) / 3) + 2 <= length params)%nat.
Proof.
  intros H.
  assert (Hz : (0 <= Z.of_nat (length params) - 2)%Z) by lia.
  pose proof (Z.mul_div_le (Z.of_nat (length params) - 2) 3 ltac:(lia)) as Hle.
  pose proof (Z.div_pos (Z.of_nat (length params) - 2) 3 Hz ltac:(lia)) as Hpos.
  lia.
Qed.

Lemma slice_three (params : list R) (i : nat) :
  (3 * i + 3 <= length params)%nat ->
  exists a b c, slice params (3 * i) (3 * i + 3) = [a; b; c].
Proof.
  intros H. unfold slice.
  replace (3 * i + 3 - 3 * i)%nat with 3%nat by lia.
  pose proof (length_skipn (3 * i) params) as Hlen.
  destruct (skipn (3 * i) params) as [|a [|b [|c rest]]]; simpl in Hlen; try lia.
  now exists a, b, c.
Qed.

Lemma component_at_returns (x params : list R) (i : nat) :
  (3 * i + 3 <= length params)%nat ->
  exists g, component_at x params i = Return g /\ length g = length x.
Proof.
  intros H. destruct (slice_three params i H) as (a & b & c & Hs).
  unfold component_at. rewrite Hs. eexists. split; [reflexivity|].
  unfold _gauss. apply length_map.
Qed.

Lemma add_component_as_component (x params y : list R) (i : nat) :
  add_component x params (Return y) i
  = (g <- component_at x params i ;; Return (Np.add y g)).
Proof.
  unfold add_component, component_at. cbn [bind].
  destruct (slice params (3 * i) (3 * i + 3)) as [|a [|b [|c [|d rest]]]]; reflexivity.
Qed.

(** The loop of lines 24-26 adds to its start the components that the loop
    of lines 72-75 collects. *)
Lemma add_components_collect (x params : list R) (l : list nat) :
  (forall i, In i l -> (3 * i + 3 <= length params)%nat) ->
  exists comps,
    collect (map (component_at x params) l) = Return comps
    /\ length comps = length l
    /\ (forall g, In g comps -> length g = length x)
    /\ forall y, fold_left (add_component x params) l (Return y)
                 = Return (fold_left Np.add comps y).
Proof.
  induction l as [|i l IH]; intros Hin.
  - exists []. repeat split; auto. intros g [].
  - destruct IH as (comps & Hc & Hlen & Hg & Hfold); [intros j Hj; apply Hin; now right|].
    destruct (component_at_returns x params i) as (g & Hgi & Hgl); [apply Hin; now left|].
    exists (g :: comps). cbn [map collect]. rewrite Hgi, Hc. cbn [bind].
    split; [reflexivity|]. split; [simpl; now rewrite Hlen|]. split.
    + intros h [<-|Hh]; auto.
    + intros y. cbn [fold_left]. rewrite add_component_as_component, Hgi. cbn [bind].
      apply Hfold.
Qed.

Lemma fold_add_length (comps : list (list R)) (n : nat) :
  (forall g, In g comps -> length g = n) ->
  forall y, length y = n -> length (fold_left Np.add comps y) = n.
Proof.
  induction comps as [|g comps IH]; intros Hg y Hy; simpl; [assumption|].
  apply IH; [intros h Hh; apply Hg; now right|].
  unfold Np.add. rewrite map2_length_same; [assumption|].
  rewrite Hy. symmetry. apply Hg. now left.
Qed.

(** X1: a parameter tuple with fewer than two entries makes [_fit_model] raise
    the [IndexError] of [params[-2]]; every longer tuple is accepted, whatever
    its length, and the result has one value per point of [x].  The unpacking
    of the slices in the loop never fails. *)
Theorem fit_model_raises_only_on_short_tuples (x params : list R) :
  ((length params < 2)%nat ->
     _fit_model x params = Raise (IndexError "tuple index out of range"))
  /\ ((2 <= length params)%nat ->
        exists y, _fit_model x params = Return y /\ length y = length x).
Proof.
  split; intros H; unfold _fit_model.
  - rewrite from_end_short by assumption. reflexivity.
  - destruct (from_end_returns params 2) as [c0 H0]; [lia|].
    destruct (from_end_returns params 1) as [c1 H1]; [lia|].
    rewrite H0, H1. cbn [bind].
    destruct (add_components_collect x params
                (seq 0 (Z.to_nat ((Z.of_nat (length params) - 2) / 3))))
      as (comps & _ & _ & Hg & Hfold).
    { intros i Hi. apply in_seq in Hi. pose proof (n_comp_bound params H). lia. }
    rewrite Hfold. eexists. split; [reflexivity|].
    apply fold_add_length; [assumption|apply length_map].
Qed.

(** X2: when the tuple is not of length [3k + 2], the one or two entries
    that stand between the last full triple and the baseline pair are never
    read: the model is that of the [k] full triples and the last two
    entries. *)
Theorem fit_model_ignores_stray_parameters (comps : list (R * R * R))
    (stray : list R) (intercept slope : R) (x : list R) :
  (length stray < 3)%nat ->
  _fit_model x (flat_map triple comps ++ stray ++ [intercept; slope])
  = Return (multi_gauss comps intercept slope x).
Proof.
  intros Hstray. unfold _fit_model.
  assert (Hlen : length (flat_map triple comps ++ stray ++ [intercept; slope])
                 = (3 * length comps + length stray + 2)%nat).
  { rewrite !length_app, flat_triples_length. simpl. lia. }
  assert (Hn : Z.to_nat ((Z.of_nat (length (flat_map triple comps ++ stray
                                              ++ [intercept; slope])) - 2) / 3)
               = length comps).
  { rewrite Hlen.
    replace (Z.of_nat (3 * length comps + length stray + 2) - 2)%Z
      with (Z.of_nat (length comps) * 3 + Z.of_nat (length stray))%Z by lia.
    rewrite Z.div_add_l by lia. rewrite Z.div_small by lia. lia. }
  rewrite Hn.
  assert (H2 : from_end (flat_map triple comps ++ stray ++ [intercept; slope]) 2
               = Return intercept).
  { rewrite app_assoc, from_end_app by (simpl; lia). reflexivity. }
  assert (H1 : from_end (flat_map triple comps ++ stray ++ [intercept; slope]) 1
               = Return slope).
  { rewrite app_assoc, from_end_app by (simpl; lia). reflexivity. }
  rewrite H2, H1.
  cbn [bind].
  pose proof (add_components_loop x (stray ++ [intercept; slope])
                (fun xi => intercept + slope * (xi - Np.mean x)) comps []) as H.
  cbn [length app] in H. unfold multi_gauss. rewrite <- H.
  f_equal. f_equal. apply map_ext. intros xi. simpl. lra.
Qed.

(** X3: whenever the fit of lines 43-75 returns, the fitted curve is the
    fitted baseline with the collected components added one after the other,
    there are [(len(popt) - 2) // 3] components, and the curve and every
    component have one value per time. *)
Theorem fitted_curve_is_baseline_plus_components (median : list R -> R)
    (least_squares : Scipy.solver) (t y : list R) (r : step3_fit) :
  fit_trace median least_squares t y = Return r ->
  y_fit r = fold_left Np.add (components r) (baseline_fit r)
  /\ (2 <= length (popt r))%nat
  /\ length (components r) = Z.to_nat ((Z.of_nat (length (popt r)) - 2) / 3)
  /\ length (y_fit r) = length t
  /\ forall g, In g (components r) -> length g = length t.
Proof.
  unfold fit_trace.
  destruct (start_and_bounds median t y) as [[[p0 lb] ub]|e]; cbn [bind]; [|discriminate].
  destruct (Scipy.curve_fit least_squares _fit_model t y p0 (lb, ub) 120000) as [p|e];
    cbn [bind]; [|discriminate].
  destruct (Nat.lt_ge_cases (length p) 2) as [Hshort|Hlong].
  { unfold _fit_model. rewrite from_end_short by assumption. discriminate. }
  unfold _fit_model at 1.
  destruct (from_end_returns p 2) as [c0 H0]; [lia|].
  destruct (from_end_returns p 1) as [c1 H1]; [lia|].
  rewrite H0, H1. cbn [bind].
  destruct (add_components_collect t p
              (seq 0 (Z.to_nat ((Z.of_nat (length p) - 2) / 3))))
    as (comps & Hc & Hlen & Hg & Hfold).
  { intros i Hi. apply in_seq in Hi. pose proof (n_comp_bound p Hlong). lia. }
  rewrite Hfold, Hc. cbn [bind].
  intros H. injection H as <-. cbn [y_fit components baseline_fit popt].
  split; [reflexivity|]. split; [assumption|].
  split; [now rewrite Hlen, length_seq|]. split; [|assumption].
  apply fold_add_length; [assumption|apply length_map].
Qed.

End FitModelEdges.


Section Kernels.

Import Taylor Step3.

Lemma bell_in_unit_interval (z : R) : 0 < exp (- 0.5 * z ^ 2) <= 1.
Proof.
  split; [apply exp_pos|].
  destruct (Req_dec z 0) as [->|Hz].
  - replace (- 0.5 * 0 ^ 2) with 0 by ring. rewrite exp_0. lra.
  - rewrite <- exp_0. left. apply exp_increasing.
    assert (0 < z ^ 2) by (simpl; rewrite Rmult_1_r; apply Rsqr_pos_lt; assumption). lra.
Qed.

Lemma bell_at_centre (c s : R) : exp (- 0.5 * ((c - c) / s) ^ 2) = 1.
Proof.
  replace (- 0.5 * ((c - c) / s) ^ 2) with 0 by (unfold Rdiv; ring).
  apply exp_0.
Qed.

Lemma sqrt_2pi_pos : 0 < sqrt (2 * PI).
Proof. apply sqrt_lt_R0. pose proof PI_RGT_0. lra. Qed.

(** X6: for an area that is not negative, the kernel [_gauss] takes values
    between 0 and the area, equals the area at the centre, and is symmetric
    about the centre, whatever the width, zero and negative widths
    included. *)
Theorem area_kernel_peaks_at_its_area (x : list R) (area center sigma : R) :
  0 <= area ->
  Forall (fun v => 0 <= v <= area) (_gauss x area center sigma)
  /\ _gauss [center] area center sigma = [area]
  /\ forall d, _gauss [center + d] area center sigma
               = _gauss [center - d] area center sigma.
Proof.
  intros Ha. split; [|split].
  - apply Forall_forall. intros v Hv. unfold _gauss in Hv.
    apply in_map_iff in Hv. destruct Hv as [xi [<- _]].
    pose proof (bell_in_unit_interval ((xi - center) / Rmax sigma 1e-9)). nra.
  - unfold _gauss. cbn [map]. rewrite bell_at_centre. f_equal. ring.
  - intros d. unfold _gauss. cbn [map]. do 3 f_equal. unfold Rdiv. ring.
Qed.

(** X7: for a positive width, the normalised kernel [gauss] of the right
    panel takes values between 0 and [area / (sqrt(2 pi) * sigma)], reaches
    that height at the centre, and, for a width of at least [1e-9], is the
    kernel [_gauss] of the other script called with that height in the place
    of the area. *)
Theorem normalised_kernel_height (x : list R) (area sigma center : R) :
  0 <= area -> 0 < sigma ->
  Forall (fun v => 0 <= v <= area / (sqrt (2 * PI) * sigma)) (gauss x area sigma center)
  /\ gauss [center] area sigma center = [area / (sqrt (2 * PI) * sigma)]
  /\ (1e-9 <= sigma ->
      gauss x area sigma center = _gauss x (area / (sqrt (2 * PI) * sigma)) center sigma).
Proof.
  intros Ha Hs.
  assert (Hh : 0 <= area / (sqrt (2 * PI) * sigma)).
  { apply Rmult_le_pos; [assumption|]. left. apply Rinv_0_lt_compat.
    apply Rmult_lt_0_compat; [apply sqrt_2pi_pos|assumption]. }
  split; [|split].
  - apply Forall_forall. intros v Hv. unfold gauss in Hv.
    apply in_map_iff in Hv. destruct Hv as [xi [<- _]].
    pose proof (bell_in_unit_interval ((xi - center) / sigma)). nra.
  - unfold gauss. cbn [map]. rewrite bell_at_centre. f_equal. ring.
  - intros Hfloor. unfold gauss, _gauss. rewrite Rmax_left by lra. reflexivity.
Qed.

Lemma column_stack_maps {A : Type} (f1 f2 f3 f4 : A -> R) (l : list A) :
  column_stack (map f1 l) (map f2 l) (map f3 l) (map f4 l)
  = map (fun a => (f1 a, f2 a, f3 a, f4 a)) l.
Proof. induction l as [|a l IH]; simpl; [reflexivity|]. now rewrite IH. Qed.

Lemma solve_linear_yhat (lstsq : lstsq_solver) (t_mean : R) (x y : list R)
    (t0 s1 s2 : R) (A1 A2 c0 c1 : R) (yhat : list R) (sse : R) :
  solve_linear lstsq t_mean x y t0 s1 s2 = ((A1, A2, c0, c1), yhat, sse) ->
  yhat = map (fun xi => A1 * unit_gauss s1 t0 xi + A2 * unit_gauss s2 t0 xi
                        + c0 + c1 * (xi - t_mean)) x
  /\ sse = Np.sum (map (fun d => d ^ 2) (Np.sub y yhat)).
Proof.
  unfold solve_linear, basis_cols. rewrite column_stack_maps.
  destruct (lstsq _ y) as [[[k1 k2] k3] k4] eqn:Hk.
  unfold matvec. rewrite map_map. intros H. injection H as -> -> -> -> <- <-.
  split; [|reflexivity].
  apply map_ext. intros xi. unfold unit_gauss. cbn [pow]. ring.
Qed.

End Kernels.


Section GridOrder.

Import Taylor.

Variable lstsq : lstsq_solver.
Variables (t_mean : R) (t signal : list R).

Local Abbreviation sse_at := (sse_at lstsq t_mean t signal).
Local Abbreviation visit3 := (visit3 lstsq t_mean t signal).
Local Abbreviation earliest_minimum := (earliest_minimum lstsq t_mean t signal).
Local Abbreviation scanned_in_order := (scanned_in_order lstsq t_mean t signal).

Lemma scanned_in_order_step acc seen p :
  scanned_in_order acc seen -> scanned_in_order (visit3 acc p) (seen ++ [p]).
Proof.
  destruct p as [[t0 s1] s2]. intros Hacc. unfold visit3.
  destruct (Rle_dec s2 s1) as [Hskip|Hvalid].
  - rewrite visit_skips by assumption.
    destruct acc as [b|]; simpl in *.
    + destruct Hacc as (before & after & Hseen & Hb & Hsse & Hbefore & Hafter).
      exists before, (after ++ [(t0, s1, s2)]). repeat split; auto.
      * rewrite Hseen, <- app_assoc. reflexivity.
      * intros a b1 b2 Hin Hv. apply in_app_or in Hin. destruct Hin as [Hin|[Heq|[]]].
        -- now apply Hafter.
        -- injection Heq as <- <- <-. lra.
    + intros a b1 b2 Hin. apply in_app_or in Hin. destruct Hin as [Hin|[Heq|[]]].
      * eapply Hacc; eauto.
      * injection Heq as <- <- <-. assumption.
  - assert (Hlt : s1 < s2) by lra.
    unfold visit. rewrite (proj2 (Rgeb_false s1 s2) Hlt).
    destruct (solve_linear lstsq t_mean t signal t0 s1 s2) as [[coef yhat] sse] eqn:Hsol.
    assert (Hsse : sse_at t0 s1 s2 = sse) by (unfold sse_at; now rewrite Hsol).
    destruct acc as [b|]; simpl in *.
    + destruct Hacc as (before & after & Hseen & Hb & Hbsse & Hbefore & Hafter).
      destruct (Rltb sse (best_sse b)) eqn:Hcmp; simpl.
      * apply Rltb_true in Hcmp.
        exists seen, []. simpl. repeat split; auto.
        -- intros a b1 b2 Hin Hv. rewrite Hseen in Hin.
           apply in_app_or in Hin. destruct Hin as [Hin|[Heq|Hin]].
           ++ specialize (Hbefore _ _ _ Hin Hv). lra.
           ++ injection Heq as <- <- <-. lra.
           ++ specialize (Hafter _ _ _ Hin Hv). lra.
        -- intros a b1 b2 [].
      * apply Rltb_false in Hcmp.
        exists before, (after ++ [(t0, s1, s2)]). repeat split; auto.
        -- rewrite Hseen, <- app_assoc. reflexivity.
        -- intros a b1 b2 Hin Hv. apply in_app_or in Hin. destruct Hin as [Hin|[Heq|[]]].
           ++ now apply Hafter.
           ++ injection Heq as <- <- <-. lra.
    + exists seen, []. simpl. repeat split; auto.
      * intros a b1 b2 Hin Hv. specialize (Hacc _ _ _ Hin). lra.
      * intros a b1 b2 [].
Qed.

Lemma scanned_in_order_fold (l : list (R * R * R)) :
  forall acc seen,
    scanned_in_order acc seen -> scanned_in_order (fold_left visit3 l acc) (seen ++ l).
Proof.
  induction l as [|p l IH]; intros acc seen H; simpl.
  - now rewrite app_nil_r.
  - replace (seen ++ p :: l) with ((seen ++ [p]) ++ l) by (rewrite <- app_assoc; reflexivity).
    apply IH. now apply scanned_in_order_step.
Qed.

(** X9: the comparison of line 165 is strict, so among the valid triples the
    search keeps the first one, in the order of the loops, that reaches the
    smallest residual: every valid triple before it has a strictly larger
    residual, and none after it has a smaller one. *)
Theorem grid_search_keeps_the_earliest_minimum (t0s s1s s2s : list R) (b : best) :
  grid_search lstsq t_mean t signal t0s s1s s2s = Some b ->
  earliest_minimum b (grid_triples t0s s1s s2s).
Proof.
  intros H.
  pose proof (scanned_in_order_fold (grid_triples t0s s1s s2s) None []) as Hscan.
  rewrite <- grid_search_flat, H in Hscan. apply Hscan.
  simpl. intros ? ? ? [].
Qed.

End GridOrder.

Section GridShape.

Import Taylor.

Lemma linspace_length (a b : R) (n : nat) : length (Np.linspace a b n) = n.
Proof.
  destruct n as [|[|d]]; simpl; try reflexivity.
  rewrite length_app, length_map, length_seq. simpl. lia.
Qed.

Lemma grid_ends_any (sigma_est : R) :
  Rmax 0.04 (0.15 * sigma_est) <= Rmax 0.20 (0.7 * sigma_est)
  /\ Rmax 0.30 (0.8 * sigma_est) <= Rmax 1.0 (2.2 * sigma_est)
  /\ 0.04 <= Rmax 0.04 (0.15 * sigma_est)
  /\ 0.30 <= Rmax 0.30 (0.8 * sigma_est).
Proof.
  unfold Rmax.
  destruct (Rle_dec 0.04 (0.15 * sigma_est)), (Rle_dec 0.20 (0.7 * sigma_est)),
    (Rle_dec 0.30 (0.8 * sigma_est)), (Rle_dec 1.0 (2.2 * sigma_est)); lra.
Qed.

(** X10: for every estimate of the centre and of the width, negative ones
    included, the three grids have 21, 12 and 14 points; the centres lie
    within 0.3 of the estimate, every narrow width is at least 0.04 and every
    wide width at least 0.30, so that no column of the design matrix divides
    by zero. *)
Theorem grids_are_positive_and_bounded (t0_est sigma_est : R) :
  (length (t0_grid t0_est) = 21%nat
   /\ forall v, In v (t0_grid t0_est) -> t0_est - 0.3 <= v <= t0_est + 0.3)
  /\ (length (s1_grid sigma_est) = 12%nat
      /\ forall v, In v (s1_grid sigma_est) ->
           0.04 <= v <= Rmax 0.20 (0.7 * sigma_est))
  /\ (length (s2_grid sigma_est) = 14%nat
      /\ forall v, In v (s2_grid sigma_est) ->
           0.30 <= v <= Rmax 1.0 (2.2 * sigma_est)).
Proof.
  destruct (grid_ends_any sigma_est) as (H1 & H2 & H3 & H4).
  split; [|split]; (split; [apply linspace_length|]); intros v Hv.
  - apply (linspace_bounds (t0_est - 0.3) (t0_est + 0.3) 21 v); [lra|exact Hv].
  - pose proof (linspace_bounds _ _ _ v H1 Hv). lra.
  - pose proof (linspace_bounds _ _ _ v H2 Hv). lra.
Qed.

(** X11: whenever the search and the unpacking of lines 152-177 return, the
    retained curve is the sum of the two plotted components less the
    baseline they both carry; it has one value per time, the retained triple
    belongs to the grids with [best_s1 < best_s2], and the retained residual
    is not negative. *)
Theorem fitted_curve_is_baseline_plus_two_components (lstsq : lstsq_solver)
    (t signal t0s s1s s2s : list R) (r : shared_fit_result) :
  search_and_unpack lstsq t signal t0s s1s s2s = Return r ->
  best_yhat (sh_best r)
  = Np.sub (Np.add (sh_comp1 r) (sh_comp2 r)) (sh_baseline_fit r)
  /\ length (best_yhat (sh_best r)) = length t
  /\ length (sh_baseline_fit r) = length t
  /\ best_s1 (sh_best r) < best_s2 (sh_best r)
  /\ In (best_t0 (sh_best r)) t0s /\ In (best_s1 (sh_best r)) s1s
  /\ In (best_s2 (sh_best r)) s2s
  /\ 0 <= best_sse (sh_best r).
Proof.
  unfold search_and_unpack.
  pose proof (grid_search_scanned lstsq (Np.mean t) t signal t0s s1s s2s) as Hscan.
  destruct (grid_search lstsq (Np.mean t) t signal t0s s1s s2s) as [b|];
    cbn [unpack_best]; [|discriminate].
  destruct Hscan as (Hlt & Hin & Hsol & _).
  apply in_grid_triples in Hin. destruct Hin as (Hi0 & Hi1 & Hi2).
  destruct (best_coef b) as [[[A1 A2] c0] c1] eqn:Hcoef.
  destruct (solve_linear_yhat _ _ _ _ _ _ _ _ _ _ _ _ _ Hsol) as [Hy Hs].
  unfold basis_cols. intros H. injection H as <-.
  cbn [sh_best sh_comp1 sh_comp2 sh_baseline_fit].
  assert (Hcurve :
    Np.sub (Np.add (Np.add (map (fun ti => c0 + c1 * (ti - Np.mean t)) t)
                           (map (fun g => A1 * g)
                                (map (fun xi => 1 / (sqrt (2 * PI) * best_s1 b)
                                                * exp (- 0.5 * ((xi - best_t0 b) / best_s1 b) ^ 2)) t)))
                   (Np.add (map (fun ti => c0 + c1 * (ti - Np.mean t)) t)
                           (map (fun g => A2 * g)
                                (map (fun xi => 1 / (sqrt (2 * PI) * best_s2 b)
                                                * exp (- 0.5 * ((xi - best_t0 b) / best_s2 b) ^ 2)) t))))
           (map (fun ti => c0 + c1 * (ti - Np.mean t)) t)
    = best_yhat b).
  { rewrite Hy. unfold Np.add, Np.sub. rewrite !map_map, !map2_map.
    apply map_ext. intros xi. unfold unit_gauss. ring. }
  split; [symmetry; exact Hcurve|].
  split; [rewrite Hy; apply length_map|].
  split; [apply length_map|].
  repeat split; try assumption.
  rewrite Hs. apply (sum_squares_nonneg (fun d : R => d)).
Qed.

End GridShape.

Section MomentBounds.

Import Taylor.

Lemma trapezoid_step (y0 y1 : R) (w : list R) (x0 x1 : R) (t : list R) :
  Np.trapezoid (y0 :: y1 :: w) (x0 :: x1 :: t)
  = (x1 - x0) * (y1 + y0) / 2 + Np.trapezoid (y1 :: w) (x1 :: t).
Proof. unfold Np.trapezoid. cbn [Np.trapezoid_terms]. apply sum_cons. Qed.

Lemma trapezoid_one_sample (y : R) (t : list R) : Np.trapezoid [y] t = 0.
Proof. destruct t as [|x0 [|x1 t]]; reflexivity. Qed.

Lemma trapezoid_one_time (w : list R) (x : R) : Np.trapezoid w [x] = 0.
Proof. destruct w as [|y0 [|y1 w]]; reflexivity. Qed.

Lemma trapezoid_no_sample (t : list R) : Np.trapezoid [] t = 0.
Proof. reflexivity. Qed.

Lemma trapezoid_no_time (w : list R) : Np.trapezoid w [] = 0.
Proof. destruct w as [|y0 [|y1 w]]; reflexivity. Qed.

(** Under non-negative weights on an increasing grid, the area is not
    negative and the first moment lies between the area times any lower and
    any upper bound of the times. *)
Lemma first_moment_bounds (lo hi : R) :
  forall w t : list R,
    increasing t -> (forall ti, In ti t -> lo <= ti <= hi) -> all_nonneg w ->
    0 <= Np.trapezoid w t
    /\ lo * Np.trapezoid w t <= Np.trapezoid (Np.mul t w) t <= hi * Np.trapezoid w t.
Proof.
  unfold Np.mul.
  induction w as [|y0 w IH]; intros t Hinc Hb Hw.
  - destruct t; cbn [Np.map2]; rewrite !trapezoid_no_sample; lra.
  - destruct t as [|x0 t].
    + cbn [Np.map2]. rewrite trapezoid_no_time, trapezoid_no_sample. lra.
    + destruct w as [|y1 w].
      * cbn [Np.map2]. destruct t; cbn [Np.map2]; rewrite !trapezoid_one_sample; lra.
      * destruct t as [|x1 t].
        -- cbn [Np.map2]. rewrite !trapezoid_one_time. lra.
        -- cbn [Np.map2]. rewrite !trapezoid_step.
           destruct Hinc as [Hlt Hinc].
           inversion Hw as [|? ? Hy0 Hw']; subst.
           inversion Hw' as [|? ? Hy1 Hw'']; subst.
           destruct (IH (x1 :: t) Hinc) as (Ha & Hlo & Hhi);
             [intros ti Hti; apply Hb; now right|assumption|].
           cbn [Np.map2] in Hlo, Hhi.
           assert (Hx0 : lo <= x0 <= hi) by (apply Hb; now left).
           assert (Hx1 : lo <= x1 <= hi) by (apply Hb; right; now left).
           assert (Hd : 0 <= (x1 - x0) * (y1 + y0))
             by (apply Rmult_le_pos; lra).
           assert (Hdlo : 0 <= (x1 - x0) * ((x1 - lo) * y1 + (x0 - lo) * y0)).
           { apply Rmult_le_pos; [lra|].
             apply Rplus_le_le_0_compat; apply Rmult_le_pos; lra. }
           assert (Hdhi : 0 <= (x1 - x0) * ((hi - x1) * y1 + (hi - x0) * y0)).
           { apply Rmult_le_pos; [lra|].
             apply Rplus_le_le_0_compat; apply Rmult_le_pos; lra. }
           split; [lra|]. split; lra.
Qed.

Lemma where_ge_nonneg (thr : R) (s0 : list R) :
  all_nonneg s0 -> all_nonneg (Np.where_ge thr s0).
Proof.
  unfold all_nonneg, Np.where_ge. intros H. apply Forall_forall. intros v Hv.
  apply in_map_iff in Hv. destruct Hv as [u [<- Hu]].
  rewrite Forall_forall in H. specialize (H u Hu).
  destruct (Rgeb u thr); lra.
Qed.

Lemma thresholded_nonneg (peak : R) (s0 : list R) :
  all_nonneg s0 -> all_nonneg (Spec.thresholded peak s0).
Proof. rewrite <- where_ge_thresholded. apply where_ge_nonneg. Qed.

Lemma moment_weights_nonneg (peak : R) (t s0 : list R) :
  all_nonneg s0 -> all_nonneg (Spec.moment_weights peak t s0).
Proof.
  intros H. unfold Spec.moment_weights.
  destruct (Spec.unusable _); [assumption|now apply thresholded_nonneg].
Qed.

Lemma single_moments_steps (t s0 : list R) (peak : R) :
  Np.amax s0 = Return peak ->
  single_moments t s0 = Return (Spec.moment_estimate 1e-12 peak t s0).
Proof.
  intros Hmax. unfold single_moments. rewrite Hmax. cbn [bind].
  rewrite where_ge_thresholded.
  unfold Spec.moment_estimate, Spec.moment_weights, Spec.unusable.
  destruct (negb (Np.isfinite _) || Rleb _ 0); reflexivity.
Qed.

Lemma shared_moments_steps (t s0 : list R) (peak : R) :
  Np.amax s0 = Return peak ->
  shared_moments t s0 = Return (Spec.moment_estimate 1e-6 peak t s0).
Proof.
  intros Hmax. unfold shared_moments. rewrite Hmax. cbn [bind].
  rewrite where_ge_thresholded.
  unfold Spec.moment_estimate, Spec.moment_weights, Spec.unusable.
  destruct (negb (Np.isfinite _) || Rleb _ 0); reflexivity.
Qed.

Lemma moments_return_an_estimate (t s0 : list R) (est : R * R * R) :
  single_moments t s0 = Return est \/ shared_moments t s0 = Return est ->
  exists floor peak,
    (floor = 1e-12 \/ floor = 1e-6) /\ est = Spec.moment_estimate floor peak t s0.
Proof.
  intros H. destruct (Np.amax s0) as [peak|e] eqn:Hmax.
  - destruct H as [H|H].
    + rewrite (single_moments_steps t s0 peak Hmax) in H. injection H as <-.
      exists 1e-12, peak. auto.
    + rewrite (shared_moments_steps t s0 peak Hmax) in H. injection H as <-.
      exists 1e-6, peak. auto.
  - unfold single_moments, shared_moments in H. rewrite Hmax in H.
    destruct H as [H|H]; discriminate.
Qed.

Lemma estimate_area_and_centre (floor peak : R) (t s0 : list R) (lo hi : R) :
  increasing t -> (forall ti, In ti t -> lo <= ti <= hi) -> all_nonneg s0 ->
  0 <= fst (fst (Spec.moment_estimate floor peak t s0))
  /\ (1e-12 <= fst (fst (Spec.moment_estimate floor peak t s0)) ->
      lo <= snd (fst (Spec.moment_estimate floor peak t s0)) <= hi).
Proof.
  intros Hinc Hb Hs0. unfold Spec.moment_estimate. cbn [fst snd].
  destruct (first_moment_bounds lo hi (Spec.moment_weights peak t s0) t Hinc Hb)
    as (Ha & Hlo & Hhi); [now apply moment_weights_nonneg|].
  split; [assumption|]. intros Hbig.
  rewrite Rmax_left by lra.
  set (a := Np.trapezoid (Spec.moment_weights peak t s0) t) in *.
  set (m := Np.trapezoid (Np.mul t (Spec.moment_weights peak t s0)) t) in *.
  assert (Hpos : 0 < a) by lra.
  split.
  - apply Rmult_le_reg_r with a; [assumption|].
    replace (m / a * a) with m by (field; lra). lra.
  - apply Rmult_le_reg_r with a; [assumption|].
    replace (m / a * a) with m by (field; lra). lra.
Qed.

Lemma list_bounded (t : list R) : exists lo hi, forall ti, In ti t -> lo <= ti <= hi.
Proof.
  induction t as [|a t (lo & hi & IH)].
  - exists 0, 0. intros ti [].
  - exists (Rmin a lo), (Rmax a hi). intros ti [<-|Hti].
    + split; [apply Rmin_l|apply Rmax_l].
    + specialize (IH ti Hti).
      pose proof (Rmin_r a lo). pose proof (Rmax_r a hi). lra.
Qed.

(** X12: on an increasing grid and a trace without negative samples, either
    copy of the moment estimator returns an area that is not negative, and,
    when that area is at least [1e-12], a centre between any lower and any
    upper bound of the times. *)
Theorem moment_centre_lies_on_the_grid (t s0 : list R) (lo hi area center sigma : R) :
  increasing t -> (forall ti, In ti t -> lo <= ti <= hi) -> all_nonneg s0 ->
  single_moments t s0 = Return (area, center, sigma)
  \/ shared_moments t s0 = Return (area, center, sigma) ->
  0 <= area /\ (1e-12 <= area -> lo <= center <= hi).
Proof.
  intros Hinc Hb Hs0 H.
  destruct (moments_return_an_estimate t s0 _ H) as (floor & peak & _ & Hest).
  pose proof (estimate_area_and_centre floor peak t s0 lo hi Hinc Hb Hs0) as Hfacts.
  rewrite <- Hest in Hfacts. exact Hfacts.
Qed.

Lemma sqrt_1e12 : sqrt 1e-12 = 1e-6.
Proof. replace 1e-12 with (1e-6 * 1e-6) by lra. apply sqrt_square. lra. Qed.

Lemma sqrt_1e6 : sqrt 1e-6 = 1e-3.
Proof. replace 1e-6 with (1e-3 * 1e-3) by lra. apply sqrt_square. lra. Qed.

Lemma floored_widths (v : R) :
  1e-6 <= sqrt (Rmax v 1e-12)
  /\ sqrt (Rmax v 1e-6) = Rmax (sqrt (Rmax v 1e-12)) 1e-3.
Proof.
  split.
  - rewrite <- sqrt_1e12. apply sqrt_le_1_alt. apply Rmax_r.
  - destruct (Rle_dec v 1e-6) as [Hsmall|Hbig].
    + rewrite (Rmax_right v 1e-6) by lra. rewrite sqrt_1e6.
      rewrite Rmax_right; [reflexivity|].
      rewrite <- sqrt_1e6. apply sqrt_le_1_alt.
      unfold Rmax. destruct (Rle_dec v 1e-12); lra.
    + rewrite (Rmax_left v 1e-6), (Rmax_left v 1e-12) by lra.
      rewrite Rmax_left; [reflexivity|].
      rewrite <- sqrt_1e6. apply sqrt_le_1_alt. lra.
Qed.

(** X13: on any non-empty trace both copies of the moment estimator return,
    with the same area and the same centre; the width of the left panel is
    at least [1e-6], and the width of the right panel is the larger of that
    width and [1e-3]. *)
Theorem moment_copies_differ_only_in_the_floor (t s0 : list R) :
  s0 <> [] ->
  exists area center narrow wide,
    single_moments t s0 = Return (area, center, narrow)
    /\ shared_moments t s0 = Return (area, center, wide)
    /\ 1e-6 <= narrow
    /\ wide = Rmax narrow 1e-3.
Proof.
  intros Hne. destruct (amax_is_max s0 Hne) as (peak & Hmax & _).
  rewrite (single_moments_steps t s0 peak Hmax), (shared_moments_steps t s0 peak Hmax).
  unfold Spec.moment_estimate.
  do 4 eexists. split; [reflexivity|]. split; [reflexivity|].
  apply floored_widths.
Qed.

Lemma trapezoid_of_zeros :
  forall y x : list R, Forall (fun v => v = 0) y -> Np.trapezoid y x = 0.
Proof.
  induction y as [|y0 y IH]; intros x Hz; [reflexivity|].
  destruct y as [|y1 y]; [apply trapezoid_one_sample|].
  destruct x as [|x0 [|x1 x]]; [apply trapezoid_no_time|apply trapezoid_one_time|].
  rewrite trapezoid_step.
  inversion Hz as [|? ? H0 Hz']; subst. inversion Hz' as [|? ? H1 _]; subst.
  rewrite IH by assumption. lra.
Qed.

Lemma mul_by_zeros :
  forall u w : list R, Forall (fun v => v = 0) w -> Forall (fun v => v = 0) (Np.mul u w).
Proof.
  unfold Np.mul. induction u as [|a u IH]; intros [|b w] Hz; cbn [Np.map2]; try constructor.
  - inversion Hz; subst. lra.
  - inversion Hz; subst. now apply IH.
Qed.

(** X14: a trace that is zero everywhere gives, through the fallback of lines
    47-49, an area of 0, a centre of 0 and the floor widths [1e-6] and
    [1e-3]: no error is raised and nothing is divided by zero. *)
Theorem moments_of_a_flat_trace (t s0 : list R) :
  s0 <> [] -> Forall (fun v => v = 0) s0 ->
  single_moments t s0 = Return (0, 0, 1e-6)
  /\ shared_moments t s0 = Return (0, 0, 1e-3).
Proof.
  intros Hne Hz. destruct (amax_is_max s0 Hne) as (peak & Hmax & Hin & _).
  rewrite (single_moments_steps t s0 peak Hmax), (shared_moments_steps t s0 peak Hmax).
  assert (Hw : Forall (fun v => v = 0) (Spec.moment_weights peak t s0)).
  { unfold Spec.moment_weights. destruct (Spec.unusable _); [assumption|].
    unfold Spec.thresholded. apply Forall_forall. intros v Hv.
    apply in_map_iff in Hv. destruct Hv as [u [<- Hu]].
    rewrite Forall_forall in Hz. rewrite (Hz u Hu). now destruct (Rltb 0 (0.10 * peak)). }
  unfold Spec.moment_estimate.
  rewrite (trapezoid_of_zeros _ t Hw).
  rewrite (trapezoid_of_zeros _ t (mul_by_zeros t _ Hw)).
  rewrite (trapezoid_of_zeros _ t (mul_by_zeros _ _ Hw)).
  rewrite (Rmax_right 0 1e-12) by lra.
  replace (0 / 1e-12) with 0 by (field; lra).
  rewrite (Rmax_right 0 1e-12), (Rmax_right 0 1e-6) by lra.
  now rewrite sqrt_1e12, sqrt_1e6.
Qed.

End MomentBounds.

Section Edges.

Import Taylor.

Lemma select_by_test {A : Type} (f : A -> bool) (l : list A) :
  Np.select (map f l) l = filter f l.
Proof.
  induction l as [|a l IH]; simpl; [reflexivity|].
  rewrite IH. reflexivity.
Qed.

Lemma select_lengths_agree {A B : Type} (mask : list bool) :
  forall (a : list A) (b : list B),
    length a = length b -> length (Np.select mask a) = length (Np.select mask b).
Proof.
  induction mask as [|m mask IH]; intros [|u a] [|v b] H; simpl in *; try congruence.
  destruct m; simpl; rewrite (IH a b); congruence.
Qed.

Lemma amin_is_min (a : list R) :
  a <> [] ->
  exists lo, Np.amin a = Return lo /\ In lo a /\ forall v, In v a -> lo <= v.
Proof.
  destruct a as [|x l]; [congruence|]. intros _.
  exists (fold_left Rmin l x). split; [reflexivity|].
  destruct (fold_min_le l x) as [H1 H2]. split.
  - destruct (fold_min_in l x) as [->|H]; [now left|now right].
  - intros v [<-|Hv]; auto.
Qed.

Lemma shared_edge_mask_returns (t : list R) :
  t <> [] -> exists mask, shared_edge_mask t = Return mask.
Proof.
  intros Hne.
  destruct (amin_is_min t Hne) as (lo & Hlo & _).
  destruct (amax_is_max t Hne) as (hi & Hhi & _).
  unfold shared_edge_mask. rewrite Hlo, Hhi. cbn [bind]. now eexists.
Qed.

(** X15: on a non-empty grid the edge mask of line 134 selects exactly the
    times within 0.7 of the earliest or of the latest time, the earliest and
    the latest among them: the baseline fit of the right panel is never given
    an empty array. *)
Theorem shared_edges_hold_the_extremes (t : list R) :
  t <> [] ->
  exists mask lo hi,
    shared_edge_mask t = Return mask
    /\ Np.amin t = Return lo /\ Np.amax t = Return hi
    /\ In lo (Np.select mask t) /\ In hi (Np.select mask t)
    /\ forall ti, In ti (Np.select mask t) <->
                  In ti t /\ (ti <= lo + 0.7 \/ hi - 0.7 <= ti).
Proof.
  intros Hne.
  destruct (amin_is_min t Hne) as (lo & Hlo & Hlo_in & Hlo_le).
  destruct (amax_is_max t Hne) as (hi & Hhi & Hhi_in & Hhi_ge).
  exists (map (fun ti => Rleb ti (lo + 0.7) || Rgeb ti (hi - 0.7)) t), lo, hi.
  unfold shared_edge_mask. rewrite Hlo, Hhi. cbn [bind].
  split; [reflexivity|]. split; [reflexivity|]. split; [reflexivity|].
  rewrite select_by_test.
  assert (Hiff : forall ti, In ti (filter (fun ti => Rleb ti (lo + 0.7) || Rgeb ti (hi - 0.7)) t)
                            <-> In ti t /\ (ti <= lo + 0.7 \/ hi - 0.7 <= ti)).
  { intros ti. rewrite filter_In, orb_true_iff, Rleb_true, Rgeb_true. tauto. }
  split; [apply Hiff; split; [assumption|left; lra]|].
  split; [apply Hiff; split; [assumption|right; lra]|].
  exact Hiff.
Qed.

(** X16: the edge mask of line 38 has fixed limits, so on a grid that lies
    strictly between 10 and 70 it selects nothing, and the left-panel fit
    ends with the [TypeError] that [np.polyfit] raises on an empty array. *)
Theorem left_fit_needs_samples_outside_the_peak
    (polyfit : list R -> list R -> result (R * R)) (t signal : list R) :
  rejects_empty polyfit ->
  (forall ti, In ti t -> 10 < ti < 70) ->
  single_gauss_fit polyfit t signal
  = Raise (TypeError "expected non-empty vector for x").
Proof.
  intros Hempty Hin. unfold single_gauss_fit, baseline_estimate, single_edge_mask.
  rewrite select_by_test.
  assert (Hnone : filter (fun ti => Rleb ti 10 || Rgeb ti 70) t = []).
  { induction t as [|a t IH]; [reflexivity|]. simpl.
    destruct (Hin a (or_introl eq_refl)) as [H10 H70].
    rewrite (proj2 (Rleb_false a 10) H10), (proj2 (Rgeb_false a 70) H70). simpl.
    apply IH. intros ti Hti. apply Hin. now right. }
  rewrite Hnone, Hempty. reflexivity.
Qed.

End Edges.

Section RightPanel.

Import Taylor.

Lemma search_and_unpack_best (lstsq : lstsq_solver) (t signal t0s s1s s2s : list R)
    (r : shared_fit_result) :
  search_and_unpack lstsq t signal t0s s1s s2s = Return r ->
  grid_search lstsq (Np.mean t) t signal t0s s1s s2s = Some (sh_best r).
Proof.
  unfold search_and_unpack.
  destruct (grid_search lstsq (Np.mean t) t signal t0s s1s s2s) as [b|];
    cbn [unpack_best]; [|discriminate].
  destruct (best_coef b) as [[[A1 A2] c0] c1]. unfold basis_cols.
  intros H. injection H as <-. reflexivity.
Qed.

Lemma clip0_sub_length (signal base : list R) :
  length signal = length base -> length (Np.clip0 (Np.sub signal base)) = length signal.
Proof.
  intros H. rewrite clip0_length. unfold Np.sub. now apply map2_length_same.
Qed.

(** Past the baseline fit, [shared_fit] is the search on the grids built
    from a centre and a width that is not negative. *)
Lemma shared_fit_reaches_the_search
    (polyfit : list R -> list R -> result (R * R)) (lstsq : lstsq_solver)
    (t signal : list R) :
  t <> [] -> length signal = length t ->
  (forall mask, shared_edge_mask t = Return mask ->
     is_return (polyfit (Np.select mask t) (Np.select mask signal))) ->
  exists t0_est sigma_est,
    0 <= sigma_est
    /\ shared_fit polyfit lstsq t signal
       = search_and_unpack lstsq t signal
           (t0_grid t0_est) (s1_grid sigma_est) (s2_grid sigma_est).
Proof.
  intros Hne Hlen Hfit. unfold shared_fit.
  destruct (shared_edge_mask_returns t Hne) as (mask & Hmask).
  rewrite Hmask. cbn [bind].
  destruct (Hfit mask Hmask) as [pb Hpb].
  unfold baseline_estimate. rewrite Hpb. cbn [bind snd].
  set (s0 := Np.clip0 (Np.sub signal (Np.polyval pb t))).
  assert (Hs0 : s0 <> []).
  { assert (Hl : length s0 = length signal).
    { apply clip0_sub_length. unfold Np.polyval. now rewrite length_map. }
    destruct s0; [|discriminate]. destruct t; [congruence|]. simpl in *. lia. }
  destruct (amax_is_max s0 Hs0) as (peak & Hmax & _).
  rewrite (shared_moments_steps t s0 peak Hmax). cbn [bind].
  unfold Spec.moment_estimate.
  eexists. eexists. split; [|reflexivity]. apply sqrt_pos.
Qed.

(** On those grids the search returns, with a narrow width of at least 0.04
    below a wide width of at least 0.30. *)
Lemma search_on_the_constructed_grids (lstsq : lstsq_solver) (t signal : list R)
    (t0_est sigma_est : R) :
  0 <= sigma_est ->
  exists r,
    search_and_unpack lstsq t signal
      (t0_grid t0_est) (s1_grid sigma_est) (s2_grid sigma_est) = Return r
    /\ 0.04 <= best_s1 (sh_best r) < best_s2 (sh_best r)
    /\ 0.30 <= best_s2 (sh_best r)
    /\ 0 <= best_sse (sh_best r)
    /\ length (best_yhat (sh_best r)) = length t.
Proof.
  intros Hsig.
  destruct (grid_ends sigma_est Hsig) as (_ & _ & H3).
  destruct (grid_search_retains lstsq (Np.mean t) t signal
              (t0_grid t0_est) (s1_grid sigma_est) (s2_grid sigma_est)
              (t0_est - 0.3) (Rmax 0.04 (0.15 * sigma_est)) (Rmax 1.0 (2.2 * sigma_est)))
    as [b Hb]; [apply linspace_first; lia|apply linspace_first; lia
               |apply linspace_last; lia|exact H3|].
  destruct (unpack_best_some (Np.mean t) t b) as [r Hr].
  assert (Hrun : search_and_unpack lstsq t signal
                   (t0_grid t0_est) (s1_grid sigma_est) (s2_grid sigma_est) = Return r).
  { unfold search_and_unpack. now rewrite Hb. }
  exists r. split; [exact Hrun|].
  pose proof (search_and_unpack_best _ _ _ _ _ _ _ Hrun) as Hbest.
  pose proof (grid_search_scanned lstsq (Np.mean t) t signal
                (t0_grid t0_est) (s1_grid sigma_est) (s2_grid sigma_est)) as Hscan.
  rewrite Hbest in Hscan. destruct Hscan as (Hlt & Hin & Hsol & _).
  apply in_grid_triples in Hin. destruct Hin as (_ & Hi1 & Hi2).
  destruct (grid_ends_any sigma_est) as (G1 & G2 & G3 & G4).
  pose proof (linspace_bounds _ _ _ _ G1 Hi1) as B1.
  pose proof (linspace_bounds _ _ _ _ G2 Hi2) as B2.
  destruct (best_coef (sh_best r)) as [[[A1 A2] c0] c1].
  destruct (solve_linear_yhat _ _ _ _ _ _ _ _ _ _ _ _ _ Hsol) as [Hy Hs].
  split; [lra|]. split; [lra|]. split.
  - rewrite Hs. apply (sum_squares_nonneg (fun d : R => d)).
  - rewrite Hy. apply length_map.
Qed.

(** X17: on a non-empty trace with one sample per time, once [np.polyfit]
    returns on the edge samples, the right-panel fit of lines 119-177
    returns; the narrow width it retains is at least 0.04 and below the wide
    width, which is at least 0.30; the residual is not negative and the
    fitted curve has one value per time. *)
Theorem shared_fit_returns_a_narrow_and_a_wide_peak
    (polyfit : list R -> list R -> result (R * R)) (lstsq : lstsq_solver)
    (t signal : list R) :
  t <> [] -> length signal = length t ->
  (forall mask, shared_edge_mask t = Return mask ->
     is_return (polyfit (Np.select mask t) (Np.select mask signal))) ->
  exists r,
    shared_fit polyfit lstsq t signal = Return r
    /\ 0.04 <= best_s1 (sh_best r) < best_s2 (sh_best r)
    /\ 0.30 <= best_s2 (sh_best r)
    /\ 0 <= best_sse (sh_best r)
    /\ length (best_yhat (sh_best r)) = length t.
Proof.
  intros Hne Hlen Hfit.
  destruct (shared_fit_reaches_the_search polyfit lstsq t signal Hne Hlen Hfit)
    as (t0_est & sigma_est & Hsig & Heq).
  destruct (search_on_the_constructed_grids lstsq t signal t0_est sigma_est Hsig)
    as (r & Hr & Hprops).
  exists r. split; [|exact Hprops]. now rewrite Heq.
Qed.

End RightPanel.

Section RightPanelScript.

Import Taylor.

Lemma linspace_interior (a b : R) (n i : nat) :
  (i < n - 1)%nat ->
  In (INR i * ((b - a) / INR (n - 1)) + a) (Np.linspace a b n).
Proof.
  destruct n as [|[|d]]; intros H; simpl in H; try lia.
  unfold Np.linspace. apply in_or_app. left.
  replace (S (S d) - 1)%nat with (S d) by lia.
  apply in_map_iff. exists i. split; [reflexivity|].
  apply in_seq. lia.
Qed.

(** The windowed trace of lines 98-117: one sample per time, all times in
    the window, and at least one of them. *)
Lemma shared_signal_window (G : Generator) (os : entropy G) :
  length (snd (shared_signal G os)) = length (fst (shared_signal G os))
  /\ fst (shared_signal G os) <> []
  /\ forall ti, In ti (fst (shared_signal G os)) -> 4.5 <= ti <= 7.5.
Proof.
  unfold shared_signal.
  destruct (normal G 0 0.006 (default_rng G (Some 7%Z) os)) as [noise rng].
  cbn [fst snd]. rewrite select_by_test.
  assert (Hin : forall ti,
             In ti (filter (fun ti => Rgeb ti (6 - 1.5) && Rleb ti (6 + 1.5))
                           (Np.linspace 3 8 700))
             <-> In ti (Np.linspace 3 8 700) /\ 4.5 <= ti <= 7.5).
  { intros ti. rewrite filter_In, andb_true_iff, Rgeb_true, Rleb_true.
    split; intros [H1 H2]; (split; [assumption|lra]). }
  split; [|split].
  - rewrite <- select_by_test. symmetry. apply select_lengths_agree.
    set (t := Np.linspace 3 8 700).
    assert (Hclean : length (Np.add (gauss t 0.22 0.10 6) (gauss t 0.75 0.55 6)) = length t).
    { unfold Np.add, gauss. rewrite map2_length_same; now rewrite !length_map. }
    assert (Hbase : length (Np.add (map (fun _ : R => 1) t)
                                   (Np.add (gauss t 0.22 0.10 6) (gauss t 0.75 0.55 6)))
                    = length t).
    { unfold Np.add at 1. rewrite map2_length_same; rewrite length_map; congruence. }
    unfold Np.add at 1. rewrite map2_length_same; [exact Hbase|].
    now rewrite Hbase, draw_length.
  - pose proof (linspace_interior 3 8 700 210 ltac:(lia)) as Hpt.
    assert (Hval : 4.5 <= INR 210 * ((8 - 3) / INR (700 - 1)) + 3 <= 7.5).
    { rewrite !INR_IZR_INZ.
      replace (Z.of_nat 210) with 210%Z by reflexivity.
      replace (Z.of_nat (700 - 1)) with 699%Z by reflexivity.
      split; lra. }
    intros Hnil. pose proof (proj2 (Hin _) (conj Hpt Hval)) as H.
    rewrite Hnil in H. exact H.
  - intros ti Hti. apply Hin in Hti. tauto.
Qed.

(** X18: as the script runs it, with any generator, any least-squares line
    fit and any linear solver, the right panel of lines 97-177 returns a
    fit: the window around the true centre is not empty, its edge samples
    are at non-zero times, and the grids hold a valid triple.  The widths
    retained satisfy [0.04 <= best_s1 < best_s2] and [0.30 <= best_s2]. *)
Theorem right_panel_always_finds_two_peaks (G : Generator)
    (polyfit : list R -> list R -> result (R * R)) (lstsq : lstsq_solver)
    (os : entropy G) :
  least_squares_line polyfit ->
  exists r,
    plot_shared_t0_multi_gauss G polyfit lstsq os = Return r
    /\ 0.04 <= best_s1 (sh_best r) < best_s2 (sh_best r)
    /\ 0.30 <= best_s2 (sh_best r)
    /\ 0 <= best_sse (sh_best r)
    /\ length (best_yhat (sh_best r)) = length (fst (shared_signal G os)).
Proof.
  intros Hfit. unfold plot_shared_t0_multi_gauss.
  destruct (shared_signal_window G os) as (Hlen & Hne & Hwin).
  destruct (shared_signal G os) as [t signal]. cbn [fst snd] in *.
  assert (Hedge : forall mask, shared_edge_mask t = Return mask ->
                    is_return (polyfit (Np.select mask t) (Np.select mask signal))).
  { intros mask Hmask.
    destruct (amin_is_min t Hne) as (lo & Hlo & Hlo_in & _).
    destruct (amax_is_max t Hne) as (hi & Hhi & _).
    unfold shared_edge_mask in Hmask. rewrite Hlo, Hhi in Hmask. cbn [bind] in Hmask.
    injection Hmask as <-.
    destruct (Hfit (Np.select (map (fun ti => Rleb ti (lo + 0.7) || Rgeb ti (hi - 0.7)) t) t)
                   (Np.select (map (fun ti => Rleb ti (lo + 0.7) || Rgeb ti (hi - 0.7)) t) signal))
      as (p & Hp & _).
    - exists lo. split.
      + rewrite select_by_test. apply filter_In. split; [assumption|].
        apply orb_true_iff. left. apply Rleb_true. lra.
      + specialize (Hwin lo Hlo_in). lra.
    - apply select_lengths_agree. now symmetry.
    - now exists p. }
  destruct (shared_fit_reaches_the_search polyfit lstsq t signal Hne Hlen Hedge)
    as (t0_est & sigma_est & Hsig & Heq).
  destruct (search_on_the_constructed_grids lstsq t signal t0_est sigma_est Hsig)
    as (r & Hr & Hprops).
  exists r. split; [|exact Hprops]. now rewrite Heq.
Qed.

End RightPanelScript.


Section LeftPanel.

Import Taylor Panels.

Lemma single_gauss_fit_fields (polyfit : list R -> list R -> result (R * R))
    (t signal : list R) (f : single_fit) :
  single_gauss_fit polyfit t signal = Return f ->
  exists pb,
    polyfit (Np.select (single_edge_mask t) t) (Np.select (single_edge_mask t) signal)
    = Return pb
    /\ sf_signal f = signal
    /\ sf_baseline_hat f = Np.polyval pb t
    /\ single_moments t (Np.clip0 (Np.sub signal (Np.polyval pb t)))
       = Return (sf_area f, sf_t0_est f, sf_sigma_est f)
    /\ length (sf_fit f) = length t.
Proof.
  unfold single_gauss_fit, baseline_estimate.
  destruct (polyfit _ _) as [pb|e]; cbn [bind snd]; [|discriminate].
  destruct (single_moments t _) as [[[area t0_est] sigma_est]|e] eqn:Hm;
    cbn [bind]; [|discriminate].
  intros H. injection H as <-.
  cbn [sf_signal sf_baseline_hat sf_area sf_t0_est sf_sigma_est sf_fit].
  exists pb. repeat split; try reflexivity; try assumption.
  unfold Np.add, Np.polyval. rewrite map2_length_same; now rewrite !length_map.
Qed.

(** X19: whenever the left-panel fit of lines 38-57 returns on a trace with
    one sample per time, the estimated width is at least [1e-6], so that the
    Gaussian of line 55 divides by a positive width; the baseline and the
    fitted curve have one value per time; and on an increasing grid the area
    is not negative and, when at least [1e-12], the centre lies between any
    bounds of the times. *)
Theorem single_gauss_fit_is_well_formed
    (polyfit : list R -> list R -> result (R * R)) (t signal : list R)
    (f : single_fit) :
  single_gauss_fit polyfit t signal = Return f ->
  length signal = length t ->
  1e-6 <= sf_sigma_est f
  /\ length (sf_baseline_hat f) = length t
  /\ length (sf_fit f) = length t
  /\ (increasing t ->
      0 <= sf_area f
      /\ forall lo hi, (forall ti, In ti t -> lo <= ti <= hi) ->
           1e-12 <= sf_area f -> lo <= sf_t0_est f <= hi).
Proof.
  intros Hfit Hlen.
  destruct (single_gauss_fit_fields polyfit t signal f Hfit)
    as (pb & _ & _ & Hbase & Hm & Hfitlen).
  set (s0 := Np.clip0 (Np.sub signal (Np.polyval pb t))) in *.
  split.
  - destruct (Np.amax s0) as [peak|e] eqn:Hmax.
    + rewrite (single_moments_steps t s0 peak Hmax) in Hm.
      unfold Spec.moment_estimate in Hm. injection Hm as _ _ <-.
      apply floored_widths.
    + unfold single_moments in Hm. rewrite Hmax in Hm. discriminate.
  - split; [rewrite Hbase; apply length_map|]. split; [exact Hfitlen|].
    intros Hinc.
    assert (Hs0 : all_nonneg s0) by apply clip0_nonneg.
    destruct (Np.amax s0) as [peak|e] eqn:Hmax.
    + rewrite (single_moments_steps t s0 peak Hmax) in Hm.
      assert (Hest : Spec.moment_estimate 1e-12 peak t s0
                     = (sf_area f, sf_t0_est f, sf_sigma_est f)) by congruence.
      split.
      * destruct (list_bounded t) as (lo & hi & Hb).
        pose proof (estimate_area_and_centre 1e-12 peak t s0 lo hi Hinc Hb Hs0) as [Ha _].
        rewrite Hest in Ha. exact Ha.
      * intros lo hi Hb Hbig.
        pose proof (estimate_area_and_centre 1e-12 peak t s0 lo hi Hinc Hb Hs0) as [_ Hc].
        rewrite Hest in Hc. now apply Hc.
    + unfold single_moments in Hm. rewrite Hmax in Hm. discriminate.
Qed.

Lemma increasing_above_head (a : R) (l : list R) :
  increasing (a :: l) -> forall b, In b l -> a < b.
Proof.
  revert a. induction l as [|c l IH]; intros a H b Hb; [contradiction|].
  destruct H as [Hac Hl]. destruct Hb as [<-|Hb]; [assumption|].
  specialize (IH c Hl b Hb). lra.
Qed.

Lemma increasing_tail (a : R) (l : list R) : increasing (a :: l) -> increasing l.
Proof. destruct l as [|b l]; [intros _; exact I|intros [_ H]; exact H]. Qed.

Lemma increasing_filter (f : R -> bool) (l : list R) :
  increasing l -> increasing (filter f l).
Proof.
  induction l as [|a l IH]; intros H; [exact I|].
  pose proof (increasing_above_head a l H) as Habove.
  specialize (IH (increasing_tail a l H)).
  simpl. destruct (f a); [|exact IH].
  destruct (filter f l) as [|b rest] eqn:Hf; [exact I|].
  split; [|exact IH].
  apply Habove. apply (proj1 (filter_In f b l)). rewrite Hf. now left.
Qed.

Lemma increasing_shift (c : R) (l : list R) :
  increasing l -> increasing (map (fun v => v - c) l).
Proof.
  induction l as [|a [|b l] IH]; intros H; try exact I.
  destruct H as [Hab Hl]. split; [lra|]. apply IH. exact Hl.
Qed.

(** X20: the four arrays that lines 59-63 hand to the plot have the same
    length, the plotted times lie between 0 and 50, the limits of the axis,
    and they increase when the grid does. *)
Theorem left_panel_arrays_line_up
    (polyfit : list R -> list R -> result (R * R)) (t signal : list R)
    (f : single_fit) :
  single_gauss_fit polyfit t signal = Return f ->
  length signal = length t ->
  length (signal_plot (single_plot_data t f)) = length (t_plot (single_plot_data t f))
  /\ length (baseline_plot (single_plot_data t f))
     = length (t_plot (single_plot_data t f))
  /\ length (fit_plot (single_plot_data t f)) = length (t_plot (single_plot_data t f))
  /\ (forall v, In v (t_plot (single_plot_data t f)) -> 0 <= v <= 50)
  /\ (increasing t -> increasing (t_plot (single_plot_data t f))).
Proof.
  intros Hfit Hlen.
  destruct (single_gauss_fit_fields polyfit t signal f Hfit)
    as (pb & _ & Hsig & Hbase & _ & Hfitlen).
  unfold single_plot_data.
  cbn [t_plot signal_plot baseline_plot fit_plot].
  rewrite !length_map.
  split; [apply select_lengths_agree; now rewrite Hsig|].
  split; [apply select_lengths_agree; rewrite Hbase; apply length_map|].
  split; [apply select_lengths_agree; exact Hfitlen|].
  rewrite select_by_test. split.
  - intros v Hv. apply in_map_iff in Hv. destruct Hv as [ti [<- Hti]].
    apply filter_In in Hti. destruct Hti as [_ Hti].
    apply andb_true_iff in Hti. destruct Hti as [H10 H60].
    apply Rgeb_true in H10. apply Rleb_true in H60. lra.
  - intros Hinc. apply increasing_shift. now apply increasing_filter.
Qed.

End LeftPanel.

Section StartPoint.

Import Step3.

Ltac order_of_reals :=
  unfold Rmax, Rmin; repeat (destruct (Rle_dec _ _)); lra.

Lemma start_and_bounds_values (median : list R -> R) (t y : list R)
    (ymin ymax tmin tmax : R) :
  Np.amin y = Return ymin -> Np.amax y = Return ymax ->
  Np.amin t = Return tmin -> Np.amax t = Return tmax ->
  start_and_bounds median t y
  = Return ([Rmax 0.50 1e-5; 34; 1; Rmax 0.62 1e-5; 51; 1; Rmax 0.38 1e-5; 62; 1;
             median y; 0],
            [0; tmin; 0.4; 0; tmin; 0.4; 0; tmin; 0.4; ymin - 0.5; - 0.05],
            [Rmax (ymax - ymin) 0.1 * 5; tmax; 25;
             Rmax (ymax - ymin) 0.1 * 5; tmax; 25;
             Rmax (ymax - ymin) 0.1 * 5; tmax; 25;
             ymax + 0.5; 0.05]).
Proof.
  intros Hymin Hymax Htmin Htmax. unfold start_and_bounds.
  rewrite Hymax, Hymin, Htmin, Htmax. reflexivity.
Qed.

(** X5: on non-empty data the starting point and the two bounds of lines
    43-55 have 11 entries each.  The starting point lies within the bounds
    when the times reach from 34 or less to 62 or more, the trace spans at
    least 0.124 and the median lies within 0.5 of its range; when the trace
    spans less than 0.124, the starting area 0.62 is above its upper bound
    [5 * y_span]. *)
Theorem starting_point_feasibility (median : list R -> R) (t y : list R) :
  t <> [] -> y <> [] ->
  exists p0 lb ub ymin ymax tmin tmax,
    Np.amin y = Return ymin /\ Np.amax y = Return ymax
    /\ Np.amin t = Return tmin /\ Np.amax t = Return tmax
    /\ start_and_bounds median t y = Return (p0, lb, ub)
    /\ length p0 = 11%nat /\ length lb = 11%nat /\ length ub = 11%nat
    /\ (tmin <= 34 -> 62 <= tmax -> 0.124 <= ymax - ymin ->
        ymin - 0.5 <= median y <= ymax + 0.5 ->
        Scipy.in_bounds p0 lb ub = true)
    /\ (ymax - ymin < 0.124 -> Scipy.in_bounds p0 lb ub = false).
Proof.
  intros Ht Hy.
  destruct (amin_is_min y Hy) as (ymin & Hymin & _).
  destruct (amax_is_max y Hy) as (ymax & Hymax & _).
  destruct (amin_is_min t Ht) as (tmin & Htmin & _).
  destruct (amax_is_max t Ht) as (tmax & Htmax & _).
  do 3 eexists. exists ymin, ymax, tmin, tmax.
  split; [exact Hymin|]. split; [exact Hymax|].
  split; [exact Htmin|]. split; [exact Htmax|].
  split; [apply (start_and_bounds_values median t y ymin ymax tmin tmax); assumption|].
  split; [reflexivity|]. split; [reflexivity|]. split; [reflexivity|].
  cbn [Scipy.in_bounds]. split.
  - intros H34 H62 Hspan Hmed.
    repeat (apply andb_true_intro; split); try reflexivity;
      (apply Rgeb_true || apply Rleb_true); order_of_reals.
  - intros Hflat.
    assert (Hover : Rleb (Rmax 0.62 1e-5) (Rmax (ymax - ymin) 0.1 * 5) = false).
    { apply Rleb_false. order_of_reals. }
    rewrite Hover. rewrite !andb_false_r.
    repeat rewrite andb_false_l || rewrite andb_false_r. 
    destruct (Rgeb (Rmax 0.50 1e-5) 0 && Rleb (Rmax 0.50 1e-5) (Rmax (ymax - ymin) 0.1 * 5));
      destruct (Rgeb 34 tmin && Rleb 34 tmax);
      destruct (Rgeb 1 0.4 && Rleb 1 25); reflexivity.
Qed.

End StartPoint.


Section SpikeInjection.

Import Taylor Spikes.

Lemma nth_error_set_nth_other (i j : nat) (v : R) (a : list R) :
  j <> i -> nth_error (Np.set_nth i v a) j = nth_error a j.
Proof.
  revert i j. induction a as [|w a IH]; intros [|i] [|j] H; simpl; try reflexivity.
  - congruence.
  - apply IH. congruence.
Qed.

Lemma nth_error_set_nth_same (i : nat) (v : R) (a : list R) :
  (i < length a)%nat -> nth_error (Np.set_nth i v a) i = Some v.
Proof.
  revert i. induction a as [|w a IH]; intros [|i] H; simpl in *; try lia.
  - reflexivity.
  - apply IH. lia.
Qed.

Lemma put_elsewhere (idx : list nat) :
  forall vals a j, ~ In j idx -> nth_error (Np.put a idx vals) j = nth_error a j.
Proof.
  induction idx as [|i idx IH]; intros [|v vals] a j Hj; simpl; try reflexivity.
  rewrite IH by (intros H; apply Hj; now right).
  apply nth_error_set_nth_other. intros ->. apply Hj. now left.
Qed.

Lemma put_at_chosen (idx : list nat) :
  forall vals a k i v,
    NoDup idx -> nth_error idx k = Some i -> nth_error vals k = Some v ->
    (i < length a)%nat ->
    nth_error (Np.put a idx vals) i = Some v.
Proof.
  induction idx as [|i0 idx IH]; intros vals a k i v Hnd Hk Hv Hi.
  - destruct k; discriminate.
  - destruct vals as [|v0 vals]; [destruct k; discriminate|].
    inversion Hnd as [|? ? Hnotin Hnd']; subst. simpl.
    destruct k as [|k]; simpl in Hk, Hv.
    + injection Hk as ->. injection Hv as ->.
      rewrite put_elsewhere by assumption. now apply nth_error_set_nth_same.
    + apply (IH vals _ k i v Hnd' Hk Hv). now rewrite set_nth_length.
Qed.

Lemma take_reads (a : list R) (idx : list nat) :
  forall cur, Np.take a idx = Return cur ->
    length cur = length idx
    /\ forall k i, nth_error idx k = Some i ->
         (i < length a)%nat /\ nth_error cur k = nth_error a i.
Proof.
  induction idx as [|i0 idx IH]; intros cur H; simpl in H.
  - injection H as <-. split; [reflexivity|]. intros [|k] i Hk; discriminate.
  - destruct (nth_error a i0) as [v|] eqn:Hv; [|discriminate].
    destruct (Np.take a idx) as [rest|e]; cbn [bind] in H; [|discriminate].
    injection H as <-. destruct (IH rest eq_refl) as [Hlen Hget].
    split; [simpl; now rewrite Hlen|].
    intros [|k] i Hk; simpl in Hk.
    + injection Hk as <-. split; [|now rewrite Hv].
      apply nth_error_Some. now rewrite Hv.
    + now apply Hget.
Qed.

Lemma nth_error_map2 (f : R -> R -> R) :
  forall (a b : list R) k u v,
    nth_error a k = Some u -> nth_error b k = Some v ->
    nth_error (Np.map2 f a b) k = Some (f u v).
Proof.
  induction a as [|x a IH]; intros [|y b] [|k] u v Ha Hb; simpl in *; try discriminate.
  - injection Ha as ->. injection Hb as ->. reflexivity.
  - now apply IH.
Qed.

Lemma nth_error_draw (n k : nat) (sample : nat -> R) :
  (k < n)%nat -> nth_error (draw n sample) k = Some (sample k).
Proof.
  intros H. unfold draw. rewrite nth_error_map, nth_error_seq.
  destruct (Nat.ltb_spec k n); [reflexivity|lia].
Qed.

Lemma single_signal_after_the_noise (G : Generator) (c : single_cfg) (os : entropy G) :
  single_signal G c os
  = (st <- clipped_trace G c os ;;
     picked <- choice G (Np.arange (spike_margin c) (length (grid c) - spike_margin c))
                      (spike_count c) (snd st) ;;
     signal <- Np.iadd_at (fst st) (fst picked)
                 (draw (length (fst picked))
                       (fst (uniform G (spike_low c) (spike_high c) (snd picked)))) ;;
     Return (Np.clip0 signal)).
Proof.
  unfold single_signal, clipped_trace.
  destruct (Np.amax (grid c)) as [tmax|e]; cbn [bind]; [|reflexivity].
  destruct (normal G 0 (noise_scale c) _) as [noise rng1]. cbn [bind fst snd].
  destruct (choice G _ (spike_count c) rng1) as [[idx rng2]|e]; cbn [bind fst snd];
    [|reflexivity].
  destruct (uniform G (spike_low c) (spike_high c) rng2) as [bumps rng3].
  reflexivity.
Qed.

(** X21: the addition of line 35 and the clip of line 36 leave every sample
    that was not chosen as it was after the first clip, and, the chosen
    indices being distinct, turn each chosen sample into the larger of zero
    and the sample plus its own bump. *)
Theorem spikes_change_only_the_chosen_samples (G : Generator) (c : single_cfg)
    (os : entropy G) (noisy : list R) (rng1 : bitgen G) (idx : list nat)
    (rng2 : bitgen G) (signal : list R) :
  clipped_trace G c os = Return (noisy, rng1) ->
  choice G (Np.arange (spike_margin c) (length (grid c) - spike_margin c))
         (spike_count c) rng1 = Return (idx, rng2) ->
  single_signal G c os = Return signal ->
  length signal = length noisy
  /\ (forall j, ~ In j idx -> nth_error signal j = nth_error noisy j)
  /\ (NoDup idx ->
      forall k i, nth_error idx k = Some i ->
        exists v,
          nth_error noisy i = Some v
          /\ nth_error signal i
             = Some (Rmax (v + fst (uniform G (spike_low c) (spike_high c) rng2) k) 0)).
Proof.
  intros Htrace Hchoice Hrun.
  assert (Hnoisy : all_nonneg noisy).
  { unfold clipped_trace in Htrace.
    destruct (Np.amax (grid c)); cbn [bind] in Htrace; [|discriminate].
    destruct (normal G 0 (noise_scale c) _). injection Htrace as <- _.
    apply clip0_nonneg. }
  rewrite single_signal_after_the_noise, Htrace in Hrun. cbn [bind fst snd] in Hrun.
  rewrite Hchoice in Hrun. cbn [bind fst snd] in Hrun.
  set (bump := fst (uniform G (spike_low c) (spike_high c) rng2)) in *.
  unfold Np.iadd_at in Hrun.
  destruct (Np.take noisy idx) as [cur|e] eqn:Htake; cbn [bind] in Hrun; [|discriminate].
  injection Hrun as <-.
  destruct (take_reads noisy idx cur Htake) as [Hcur Hget].
  split; [now rewrite clip0_length, put_length|]. split.
  - intros j Hj. unfold Np.clip0. rewrite nth_error_map, put_elsewhere by assumption.
    destruct (nth_error noisy j) as [v|] eqn:Hv; [|reflexivity].
    simpl. f_equal. apply Rmax_left.
    unfold all_nonneg in Hnoisy. rewrite Forall_forall in Hnoisy.
    apply Hnoisy. eapply nth_error_In. exact Hv.
  - intros Hnd k i Hk.
    destruct (Hget k i Hk) as [Hi Hcurk].
    destruct (nth_error noisy i) as [v|] eqn:Hv; [|apply nth_error_None in Hv; lia].
    exists v. split; [reflexivity|].
    assert (Hklen : (k < length idx)%nat) by (apply nth_error_Some; congruence).
    unfold Np.clip0. rewrite nth_error_map.
    rewrite (put_at_chosen idx _ noisy k i (v + bump k) Hnd Hk); [reflexivity| |assumption].
    unfold Np.add. apply nth_error_map2; [assumption|].
    now apply nth_error_draw.
Qed.

End SpikeInjection.


Section LeftPanelScript.

Import Taylor Panels Spikes.

Lemma single_signal_shape (G : Generator) (c : single_cfg) (os : entropy G)
    (signal : list R) :
  single_signal G c os = Return signal ->
  all_nonneg signal /\ length signal = length (grid c).
Proof.
  rewrite single_signal_after_the_noise.
  destruct (clipped_trace G c os) as [[noisy rng1]|e] eqn:Htrace; cbn [bind fst snd];
    [|discriminate].
  destruct (choice G _ (spike_count c) rng1) as [[idx rng2]|e]; cbn [bind fst snd];
    [|discriminate].
  destruct (Np.iadd_at noisy idx _) as [spiked|e] eqn:Hadd; cbn [bind]; [|discriminate].
  intros H. injection H as <-. split; [apply clip0_nonneg|].
  rewrite clip0_length, (iadd_at_length _ _ _ _ Hadd).
  unfold clipped_trace in Htrace.
  destruct (Np.amax (grid c)); cbn [bind] in Htrace; [|discriminate].
  destruct (normal G 0 (noise_scale c) _). injection Htrace as <- _.
  rewrite clip0_length. unfold Np.add.
  assert (Hpb : forall (f g : R -> R),
             length (Np.map2 Rplus (map f (grid c)) (map g (grid c))) = length (grid c)).
  { intros f g. rewrite map2_length_same; now rewrite !length_map. }
  rewrite map2_length_same; rewrite Hpb; [reflexivity|].
  now rewrite draw_length.
Qed.

Lemma single_gauss_fit_returns (polyfit : list R -> list R -> result (R * R))
    (t signal : list R) :
  t <> [] -> length signal = length t ->
  is_return (polyfit (Np.select (single_edge_mask t) t)
                     (Np.select (single_edge_mask t) signal)) ->
  is_return (single_gauss_fit polyfit t signal).
Proof.
  intros Hne Hlen [pb Hpb]. unfold single_gauss_fit, baseline_estimate.
  rewrite Hpb. cbn [bind snd].
  set (s0 := Np.clip0 (Np.sub signal (Np.polyval pb t))).
  assert (Hs0 : s0 <> []).
  { assert (Hl : length s0 = length signal).
    { apply clip0_sub_length. unfold Np.polyval. now rewrite length_map. }
    destruct s0; [|discriminate]. destruct t; [congruence|]. simpl in *. lia. }
  destruct (amax_is_max s0 Hs0) as (peak & Hmax & _).
  rewrite (single_moments_steps t s0 peak Hmax). cbn [bind].
  unfold Spec.moment_estimate. now eexists.
Qed.

Lemma source_grid_length : length (grid source_single_cfg) = 600%nat.
Proof. apply linspace_length. Qed.

Lemma source_population_is_large_enough :
  (spike_count source_single_cfg
   <= length (Np.arange (spike_margin source_single_cfg)
                        (length (grid source_single_cfg) - spike_margin source_single_cfg)))%nat.
Proof.
  unfold Np.arange. rewrite length_seq, source_grid_length.
  change (spike_count source_single_cfg) with 10%nat.
  change (spike_margin source_single_cfg) with 30%nat. lia.
Qed.

Lemma source_population_is_on_the_grid (i : nat) :
  In i (Np.arange (spike_margin source_single_cfg)
                  (length (grid source_single_cfg) - spike_margin source_single_cfg)) ->
  (i < length (grid source_single_cfg))%nat.
Proof.
  unfold Np.arange. rewrite source_grid_length.
  change (spike_margin source_single_cfg) with 30%nat.
  intros Hi. apply in_seq in Hi. lia.
Qed.

Lemma source_edge_is_not_empty :
  In 120 (Np.select (single_edge_mask (grid source_single_cfg)) (grid source_single_cfg)).
Proof.
  unfold single_edge_mask. rewrite select_by_test. apply filter_In. split.
  - change (grid source_single_cfg) with (Np.linspace 0 120 600).
    apply linspace_last. lia.
  - apply orb_true_iff. right. apply Rgeb_true. lra.
Qed.

Lemma single_gauss_fit_shape (polyfit : list R -> list R -> result (R * R))
    (t signal : list R) (f : single_fit) :
  single_gauss_fit polyfit t signal = Return f ->
  sf_signal f = signal
  /\ length (sf_baseline_hat f) = length t
  /\ length (sf_fit f) = length t
  /\ 1e-6 <= sf_sigma_est f.
Proof.
  intros Hf.
  destruct (single_gauss_fit_fields polyfit t signal f Hf)
    as (pb & _ & Hsig & Hbase & Hm & Hfitlen).
  split; [exact Hsig|].
  split; [rewrite Hbase; unfold Np.polyval; now rewrite length_map|].
  split; [exact Hfitlen|].
  destruct (Np.amax (Np.clip0 (Np.sub signal (Np.polyval pb t)))) as [peak|e] eqn:Hmax.
  - rewrite (single_moments_steps _ _ peak Hmax) in Hm.
    unfold Spec.moment_estimate in Hm. injection Hm as _ _ <-.
    apply floored_widths.
  - unfold single_moments in Hm. rewrite Hmax in Hm. discriminate.
Qed.

(** X22: as the script runs it, with any generator whose [choice] returns
    members of the population and any least-squares line fit, the left panel
    of lines 19-57 returns: the ten spike indices lie on the grid, the edge
    mask is not empty, and the moments exist.  The trace has 600 samples,
    none negative, the baseline and the fit have 600 values, and the
    estimated width is at least [1e-6]. *)
Theorem left_panel_always_fits (G : Generator)
    (polyfit : list R -> list R -> result (R * R)) (os : entropy G) :
  least_squares_line polyfit -> chooses_from_population G ->
  exists f,
    plot_single_gauss G polyfit os = Return f
    /\ all_nonneg (sf_signal f)
    /\ length (sf_signal f) = 600%nat
    /\ length (sf_baseline_hat f) = 600%nat
    /\ length (sf_fit f) = 600%nat
    /\ 1e-6 <= sf_sigma_est f.
Proof.
  intros Hfit Hchoice. unfold plot_single_gauss.
  pose proof source_grid_length as Hgrid.
  assert (Hne : grid source_single_cfg <> []).
  { intros Hnil. rewrite Hnil in Hgrid. discriminate Hgrid. }
  destruct (Hchoice _ _ (snd (normal G 0 (noise_scale source_single_cfg)
                                     (seeded G (seed source_single_cfg))))
                    source_population_is_large_enough)
    as (idx & rng2 & Hidx & Hincl & _).
  destruct (single_signal_returns G source_single_cfg os idx rng2 Hne Hidx)
    as [signal Hsignal].
  { apply Forall_forall. intros i Hi.
    apply source_population_is_on_the_grid. now apply Hincl. }
  rewrite Hsignal. cbn [bind].
  destruct (single_signal_shape G source_single_cfg os signal Hsignal)
    as [Hnonneg Hlen].
  destruct (single_gauss_fit_returns polyfit (grid source_single_cfg) signal Hne Hlen)
    as [f Hf].
  { destruct (Hfit (Np.select (single_edge_mask (grid source_single_cfg))
                              (grid source_single_cfg))
                   (Np.select (single_edge_mask (grid source_single_cfg)) signal))
      as (p & Hp & _).
    - exists 120. split; [apply source_edge_is_not_empty|lra].
    - apply select_lengths_agree. now symmetry.
    - now exists p. }
  exists f. split; [exact Hf|].
  destruct (single_gauss_fit_shape polyfit (grid source_single_cfg) signal f Hf)
    as (Hsig & Hbase & Hfitlen & Hsigma).
  rewrite Hsig, Hbase, Hfitlen, Hlen.
  split; [exact Hnonneg|]. split; [exact Hgrid|]. split; [exact Hgrid|].
  split; [exact Hgrid|exact Hsigma].
Qed.

End LeftPanelScript.

Section SuccessfulFit.

Import Step3.

Lemma start_and_bounds_lengths (median : list R -> R) (t y p0 lb ub : list R) :
  start_and_bounds median t y = Return (p0, lb, ub) ->
  length p0 = 11%nat /\ length lb = 11%nat /\ length ub = 11%nat.
Proof.
  unfold start_and_bounds.
  destruct (Np.amax y); cbn [bind]; [|discriminate].
  destruct (Np.amin y); cbn [bind]; [|discriminate].
  destruct (Np.amin t); cbn [bind]; [|discriminate].
  destruct (Np.amax t); cbn [bind]; [|discriminate].
  intros H. injection H as <- <- <-. repeat split.
Qed.

(** X4: when the solver returns with success a vector as long as the
    starting point, the fit of lines 43-75 returns that vector, three
    components, and a fitted curve and a baseline with one value per
    time. *)
Theorem successful_fit_has_three_components (median : list R -> R)
    (least_squares : Scipy.solver) (t y p0 lb ub : list R)
    (res : Scipy.OptimizeResult) :
  start_and_bounds median t y = Return (p0, lb, ub) ->
  least_squares _fit_model t y p0 (lb, ub) 120000%Z = Return res ->
  Scipy.success res = true ->
  length (Scipy.x res) = length p0 ->
  exists r,
    fit_trace median least_squares t y = Return r
    /\ popt r = Scipy.x res
    /\ length (components r) = 3%nat
    /\ length (y_fit r) = length t
    /\ length (baseline_fit r) = length t.
Proof.
  intros Hsetup Hres Hok Hlen.
  destruct (start_and_bounds_lengths median t y p0 lb ub Hsetup) as (Hp0 & _ & _).
  assert (Hx : length (Scipy.x res) = 11%nat) by congruence.
  unfold fit_trace. rewrite Hsetup. cbn [bind].
  unfold Scipy.curve_fit. rewrite Hres. cbn [bind]. rewrite Hok. cbn [bind].
  unfold _fit_model.
  destruct (from_end_returns (Scipy.x res) 2) as [c0 H0]; [lia|].
  destruct (from_end_returns (Scipy.x res) 1) as [c1 H1]; [lia|].
  rewrite H0, H1. cbn [bind]. rewrite Hx.
  change (Z.to_nat ((Z.of_nat 11 - 2) / 3)) with 3%nat.
  destruct (add_components_collect t (Scipy.x res) (seq 0 3))
    as (comps & Hc & Hcl & Hg & Hfold).
  { intros i Hi. apply in_seq in Hi. lia. }
  rewrite Hfold, Hc. cbn [bind].
  eexists. split; [reflexivity|]. cbn [popt components y_fit baseline_fit].
  split; [reflexivity|]. split; [exact Hcl|].
  split; [|apply length_map].
  apply fold_add_length; [assumption|apply length_map].
Qed.

End SuccessfulFit.

(** ** The further properties at concrete inputs *)

Section FurtherInstances.

Import Taylor Step3 Panels Spikes.

Ltac order_of_reals :=
  unfold Rmax, Rmin; repeat (destruct (Rle_dec _ _)); lra.

Lemma polyfit_ols_returns (x y : list R) :
  x <> [] -> length x = length y -> is_return (polyfit_ols x y).
Proof.
  intros Hne Hlen. unfold polyfit_ols. destruct x; [congruence|].
  rewrite Hlen, Nat.eqb_refl. now eexists.
Qed.

Lemma counter_rng_chooses : chooses_from_population counter_rng.
Proof.
  intros population size rng Hsize. exists (firstn size population), (S rng).
  cbn [choice counter_rng].
  destruct (Nat.ltb_spec (length population) size); [lia|].
  split; [reflexivity|]. split.
  - intros i Hi. rewrite <- (firstn_skipn size population).
    apply in_or_app. now left.
  - rewrite length_firstn. lia.
Qed.

Lemma fit_model_raises_only_on_short_tuples_witness :
  _fit_model [0; 1] [5] = Raise (IndexError "tuple index out of range")
  /\ exists y, _fit_model [0; 1] [5; 6] = Return y /\ length y = 2%nat.
Proof.
  destruct (fit_model_raises_only_on_short_tuples [0; 1] [5]) as [Hshort _].
  destruct (fit_model_raises_only_on_short_tuples [0; 1] [5; 6]) as [_ Hlong].
  split; [apply Hshort; simpl; lia|apply Hlong; simpl; lia].
Defined.

Lemma fit_model_ignores_stray_parameters_witness :
  _fit_model [0] [1; 0; 1; 9; 0; 0] = Return (Spec.multi_gauss [(1, 0, 1)] 0 0 [0]).
Proof.
  apply (fit_model_ignores_stray_parameters [(1, 0, 1)] [9] 0 0 [0]).
  simpl. lia.
Defined.

(** The contented solver on the two-point trace [(0, 0), (120, 1)]. *)
Lemma content_on_two_points :
  exists p0 lb ub res,
    start_and_bounds first_sample [0; 120] [0; 1] = Return (p0, lb, ub)
    /\ content_solver _fit_model [0; 120] [0; 1] p0 (lb, ub) 120000%Z = Return res
    /\ Scipy.success res = true
    /\ Scipy.x res = p0.
Proof.
  do 4 eexists.
  split; [reflexivity|]. split.
  - unfold content_solver.
    match goal with
    | |- (if ?b then _ else _) = _ => assert (Hb : b = true)
    end.
    { cbn [fst snd Scipy.in_bounds flat_map true_components app first_sample hd].
      repeat (apply andb_true_intro; split);
        try reflexivity; (apply Rgeb_true || apply Rleb_true); cbn [fold_left];
        order_of_reals. }
    rewrite Hb. reflexivity.
  - split; reflexivity.
Qed.

Lemma content_fit_on_two_points :
  is_return (fit_trace first_sample content_solver [0; 120] [0; 1]).
Proof.
  destruct content_on_two_points as (p0 & lb & ub & res & Hsetup & Hres & Hok & Hx).
  assert (Hlen : length p0 = 11%nat).
  { unfold start_and_bounds in Hsetup. cbn [Np.amax Np.amin bind] in Hsetup.
    injection Hsetup as <- _ _. reflexivity. }
  unfold fit_trace. rewrite Hsetup. cbn [bind].
  unfold Scipy.curve_fit. rewrite Hres. cbn [bind]. rewrite Hok, Hx.
  destruct p0 as [|a0 [|a1 [|a2 [|a3 [|a4 [|a5 [|a6 [|a7 [|a8 [|a9 [|a10 [|a11 p0]]]]]]]]]]]];
    try discriminate Hlen.
  eexists. reflexivity.
Qed.

Lemma fitted_curve_is_baseline_plus_components_witness :
  exists r,
    fit_trace first_sample content_solver [0; 120] [0; 1] = Return r
    /\ y_fit r = fold_left Np.add (components r) (baseline_fit r)
    /\ length (y_fit r) = 2%nat.
Proof.
  destruct content_fit_on_two_points as [r Hr]. exists r. split; [exact Hr|].
  destruct (fitted_curve_is_baseline_plus_components
              first_sample content_solver [0; 120] [0; 1] r Hr)
    as (H1 & _ & _ & H2 & _).
  split; assumption.
Defined.

Lemma successful_fit_has_three_components_witness :
  exists r,
    fit_trace first_sample content_solver [0; 120] [0; 1] = Return r
    /\ length (components r) = 3%nat.
Proof.
  destruct content_on_two_points as (p0 & lb & ub & res & Hsetup & Hres & Hok & Hx).
  destruct (successful_fit_has_three_components
              first_sample content_solver [0; 120] [0; 1] p0 lb ub res Hsetup Hres Hok)
    as (r & Hr & _ & H3 & _).
  - now rewrite Hx.
  - exists r. split; assumption.
Defined.

Lemma starting_point_feasibility_witness :
  exists p0 lb ub,
    start_and_bounds first_sample [0; 120] [0; 1] = Return (p0, lb, ub)
    /\ length p0 = 11%nat /\ length lb = 11%nat /\ length ub = 11%nat.
Proof.
  destruct (starting_point_feasibility first_sample [0; 120] [0; 1])
    as (p0 & lb & ub & ymin & ymax & tmin & tmax & _ & _ & _ & _ & H & H1 & H2 & H3 & _).
  - discriminate.
  - discriminate.
  - exists p0, lb, ub. auto.
Defined.

Lemma area_kernel_peaks_at_its_area_witness :
  Forall (fun v => 0 <= v <= 1) (_gauss [0; 1] 1 0 1)
  /\ _gauss [0] 1 0 1 = [1].
Proof.
  destruct (area_kernel_peaks_at_its_area [0; 1] 1 0 1) as (H1 & H2 & _).
  - lra.
  - split; assumption.
Defined.

Lemma normalised_kernel_height_witness :
  gauss [0] 1 1 0 = [1 / (sqrt (2 * PI) * 1)].
Proof.
  destruct (normalised_kernel_height [0] 1 1 0) as (_ & H & _).
  - lra.
  - lra.
  - exact H.
Defined.

Lemma search_on_one_triple :
  exists r, search_and_unpack null_lstsq [0] [0] [0] [1] [2] = Return r.
Proof.
  destruct (grid_search_retains null_lstsq (Np.mean [0]) [0] [0] [0] [1] [2] 0 1 2)
    as [b Hb]; [now left|now left|now left|lra|].
  destruct (unpack_best_some (Np.mean [0]) [0] b) as [r Hr].
  exists r. unfold search_and_unpack. now rewrite Hb.
Qed.

Lemma grid_search_keeps_the_earliest_minimum_witness :
  exists b,
    grid_search null_lstsq 0 [0] [0] [0] [1] [2] = Some b
    /\ earliest_minimum null_lstsq 0 [0] [0] b (grid_triples [0] [1] [2]).
Proof.
  destruct (grid_search_retains null_lstsq 0 [0] [0] [0] [1] [2] 0 1 2)
    as [b Hb]; [now left|now left|now left|lra|].
  exists b. split; [exact Hb|].
  exact (grid_search_keeps_the_earliest_minimum null_lstsq 0 [0] [0] [0] [1] [2] b Hb).
Defined.

Lemma grids_are_positive_and_bounded_witness :
  length (s1_grid 1) = 12%nat
  /\ 0.04 <= Rmax 0.04 (0.15 * 1) <= Rmax 0.20 (0.7 * 1).
Proof.
  destruct (grids_are_positive_and_bounded 0 1) as (_ & (Hlen & Hin) & _).
  split; [exact Hlen|].
  apply Hin. apply linspace_first. lia.
Defined.

Lemma fitted_curve_is_baseline_plus_two_components_witness :
  exists r,
    search_and_unpack null_lstsq [0] [0] [0] [1] [2] = Return r
    /\ best_yhat (sh_best r)
       = Np.sub (Np.add (sh_comp1 r) (sh_comp2 r)) (sh_baseline_fit r)
    /\ 0 <= best_sse (sh_best r).
Proof.
  destruct search_on_one_triple as [r Hr]. exists r. split; [exact Hr|].
  destruct (fitted_curve_is_baseline_plus_two_components
              null_lstsq [0] [0] [0] [1] [2] r Hr)
    as (H1 & _ & _ & _ & _ & _ & _ & H2).
  split; assumption.
Defined.

Lemma moment_centre_lies_on_the_grid_witness :
  0 <= 1 /\ (1e-12 <= 1 -> 0 <= 1 <= 2).
Proof.
  apply (moment_centre_lies_on_the_grid [0; 1; 2] [0; 1; 0] 0 2 1 1 (sqrt 1e-12)).
  - simpl. repeat split; lra.
  - intros ti [<-|[<-|[<-|[]]]]; lra.
  - repeat constructor; lra.
  - left. exact (proj1 moments_of_a_spike).
Defined.

Lemma moment_copies_differ_only_in_the_floor_witness :
  exists area center narrow wide,
    single_moments [0; 1; 2] [0; 1; 0] = Return (area, center, narrow)
    /\ shared_moments [0; 1; 2] [0; 1; 0] = Return (area, center, wide)
    /\ 1e-6 <= narrow /\ wide = Rmax narrow 1e-3.
Proof.
  apply (moment_copies_differ_only_in_the_floor [0; 1; 2] [0; 1; 0]).
  discriminate.
Defined.

Lemma moments_of_a_flat_trace_witness :
  single_moments [0; 1] [0; 0] = Return (0, 0, 1e-6)
  /\ shared_moments [0; 1] [0; 0] = Return (0, 0, 1e-3).
Proof.
  apply (moments_of_a_flat_trace [0; 1] [0; 0]).
  - discriminate.
  - repeat constructor.
Defined.

Lemma shared_edges_hold_the_extremes_witness :
  exists mask lo hi,
    shared_edge_mask [1; 2; 3] = Return mask
    /\ In lo (Np.select mask [1; 2; 3]) /\ In hi (Np.select mask [1; 2; 3]).
Proof.
  destruct (shared_edges_hold_the_extremes [1; 2; 3])
    as (mask & lo & hi & Hmask & _ & _ & Hlo & Hhi & _).
  - discriminate.
  - exists mask, lo, hi. auto.
Defined.

Lemma left_fit_needs_samples_outside_the_peak_witness :
  single_gauss_fit polyfit_ols [20; 30] [1; 1]
  = Raise (TypeError "expected non-empty vector for x").
Proof.
  apply (left_fit_needs_samples_outside_the_peak polyfit_ols [20; 30] [1; 1]).
  - exact polyfit_ols_rejects_empty.
  - intros ti [<-|[<-|[]]]; lra.
Defined.

Lemma polyfit_ols_on_the_edges (t signal : list R) :
  t <> [] -> length signal = length t ->
  forall mask, shared_edge_mask t = Return mask ->
    is_return (polyfit_ols (Np.select mask t) (Np.select mask signal)).
Proof.
  intros Hne Hlen mask Hmask.
  destruct (amin_is_min t Hne) as (lo & Hlo & Hlo_in & _).
  destruct (amax_is_max t Hne) as (hi & Hhi & _).
  unfold shared_edge_mask in Hmask. rewrite Hlo, Hhi in Hmask. cbn [bind] in Hmask.
  injection Hmask as <-.
  apply polyfit_ols_returns.
  - rewrite select_by_test. intros Hnil.
    assert (Hin : In lo (filter (fun ti => Rleb ti (lo + 0.7) || Rgeb ti (hi - 0.7)) t)).
    { apply filter_In. split; [assumption|].
      apply orb_true_iff. left. apply Rleb_true. lra. }
    rewrite Hnil in Hin. exact Hin.
  - apply select_lengths_agree. now symmetry.
Qed.

Lemma shared_fit_returns_a_narrow_and_a_wide_peak_witness :
  exists r,
    shared_fit polyfit_ols null_lstsq [1; 2] [0; 0] = Return r
    /\ 0.04 <= best_s1 (sh_best r) < best_s2 (sh_best r).
Proof.
  destruct (shared_fit_returns_a_narrow_and_a_wide_peak
              polyfit_ols null_lstsq [1; 2] [0; 0]) as (r & Hr & Hw & _).
  - discriminate.
  - reflexivity.
  - apply polyfit_ols_on_the_edges; [discriminate|reflexivity].
  - exists r. split; assumption.
Defined.

Lemma right_panel_always_finds_two_peaks_witness :
  exists r,
    plot_shared_t0_multi_gauss counter_rng polyfit_ols null_lstsq 0%nat = Return r
    /\ 0.04 <= best_s1 (sh_best r) < best_s2 (sh_best r).
Proof.
  destruct (right_panel_always_finds_two_peaks counter_rng polyfit_ols null_lstsq 0%nat
              polyfit_ols_least_squares) as (r & Hr & Hw & _).
  exists r. split; assumption.
Defined.

Lemma left_fit_on_two_edges :
  exists f, single_gauss_fit polyfit_ols [0; 80] [0; 0] = Return f.
Proof.
  apply single_gauss_fit_returns; [discriminate|reflexivity|].
  apply polyfit_ols_returns.
  - unfold single_edge_mask. rewrite select_by_test. intros Hnil.
    assert (Hin : In 0 (filter (fun ti => Rleb ti 10 || Rgeb ti 70) [0; 80])).
    { apply filter_In. split; [now left|].
      apply orb_true_iff. left. apply Rleb_true. lra. }
    rewrite Hnil in Hin. exact Hin.
  - apply select_lengths_agree. reflexivity.
Qed.

Lemma single_gauss_fit_is_well_formed_witness :
  exists f,
    single_gauss_fit polyfit_ols [0; 80] [0; 0] = Return f
    /\ 1e-6 <= sf_sigma_est f /\ length (sf_fit f) = 2%nat.
Proof.
  destruct left_fit_on_two_edges as [f Hf]. exists f. split; [exact Hf|].
  destruct (single_gauss_fit_is_well_formed polyfit_ols [0; 80] [0; 0] f Hf)
    as (H1 & _ & H2 & _).
  - reflexivity.
  - split; assumption.
Defined.

Lemma left_panel_arrays_line_up_witness :
  exists f,
    single_gauss_fit polyfit_ols [0; 80] [0; 0] = Return f
    /\ length (fit_plot (single_plot_data [0; 80] f))
       = length (t_plot (single_plot_data [0; 80] f)).
Proof.
  destruct left_fit_on_two_edges as [f Hf]. exists f. split; [exact Hf|].
  destruct (left_panel_arrays_line_up polyfit_ols [0; 80] [0; 0] f Hf)
    as (_ & _ & H & _).
  - reflexivity.
  - exact H.
Defined.

Lemma spikes_change_only_the_chosen_samples_witness :
  exists noisy signal,
    single_signal counter_rng tiny_cfg 0%nat = Return signal
    /\ length signal = length noisy
    /\ nth_error signal 0 = nth_error noisy 0.
Proof.
  destruct (clipped_trace counter_rng tiny_cfg 0%nat) as [[noisy rng1]|e] eqn:Htrace;
    [|discriminate Htrace].
  destruct (single_signal counter_rng tiny_cfg 0%nat) as [signal|e] eqn:Hrun;
    [|discriminate Hrun].
  exists noisy, signal. split; [reflexivity|].
  destruct (spikes_change_only_the_chosen_samples counter_rng tiny_cfg 0%nat
              noisy rng1 [1%nat] (S rng1) signal Htrace eq_refl Hrun) as (H1 & H2 & _).
  split; [exact H1|]. apply H2. intros [H|[]]. discriminate H.
Defined.

Lemma left_panel_always_fits_witness :
  exists f,
    plot_single_gauss counter_rng polyfit_ols 0%nat = Return f
    /\ all_nonneg (sf_signal f) /\ 1e-6 <= sf_sigma_est f.
Proof.
  destruct (left_panel_always_fits counter_rng polyfit_ols 0%nat
              polyfit_ols_least_squares counter_rng_chooses)
    as (f & Hf & H1 & _ & _ & _ & H2).
  exists f. repeat split; assumption.
Defined.

End FurtherInstances.
